(** * car-racing-game: the ECS engine, the physics components and the track grid

    A shallow embedding of the JavaScript sources

    - [src/js/config/GameConfig.js]: the track grid and the conversions
      between world and grid coordinates (module [GameConfig]);
    - [src/js/engine/Entity.js]: the component map of an entity
      ([Entity_addComponent] and its siblings);
    - the components file: [Transform] and [Physics]
      ([Physics_applyForce], [Physics_setDirection], [Physics_update]);
    - [src/js/entities/Car.js]: [CarPhysics]
      ([CarPhysics_update], [CarPhysics_checkTrackCollision_body]);
    - the engine file: the frame limiter of [class Game] (module [Game]);

    followed by the properties of them that the specification states.

    Numbers.  A JavaScript number is modelled by an exact number: a real
    ([R]) in the physics code, which calls [Math.sqrt], and a rational ([Q])
    in the game loop, which only adds, subtracts, divides and takes
    remainders, so that the loop can be run on concrete timestamps.
    Rounding, NaN and the infinities are outside the model.

    Objects.  Entities and components are objects with identity; they live in
    a store ([World]) and refer to one another by location ([loc]), so that a
    Physics component reaches the Transform it writes to the way the source
    does, through [this.entity.getComponent('Transform')]. *)

From Stdlib Require Import Reals Lra QArith Qround ZArith.
From stdpp Require Import gmap strings list fin_maps.

Local Open Scope R_scope.

(** ** JavaScript comparisons on the real-number model *)

(** [a > b] on numbers is decided, so that the source's tests can be
    written [bool_decide (a > b)]. *)
#[global] Instance Rgt_rel_dec : RelDecision Rgt := Rgt_dec.

(** [Math.floor] of a real: the integer [z] with [z <= r < z + 1]. *)
Definition Math_floor (r : R) : Z := Int_part r.

(** ** GameConfig.js *)

Module GameConfig.

(** [GameConfig.TRACK] *)
Definition TILE_WIDTH : R := 40.
Definition TILE_HEIGHT : R := 40.
Definition COLS : Z := 20.
Definition ROWS : Z := 15.

(** [GameConfig.TRACK.TYPES] *)
Definition ROAD : Z := 0.
Definition WALL : Z := 1.
Definition PLAYER_START : Z := 2.
Definition GOAL : Z := 3.
Definition TREE : Z := 4.
Definition FLAG : Z := 5.

(** [GameConfig.CAR.PHYSICS] *)
Definition GROUND_SPEED_DECAY : R := 95 / 100.
Definition MAX_SPEED : R := 200.
Definition COLLISION_BOUNCE : R := - (1 / 10).

(** [TRACK_GRID]: 15 rows of 20 tile codes, row by row. *)
Definition TRACK_GRID : list Z :=
  [ 1;1;1;1;1; 1;1;1;1;1; 1;1;1;1;1; 1;1;1;1;1;
    1;0;3;0;0; 0;0;0;0;0; 0;0;0;0;1; 4;0;0;0;1;
    1;0;3;0;0; 0;0;0;0;0; 0;0;0;0;1; 4;2;2;0;1;
    1;4;1;1;1; 1;1;1;1;1; 1;0;0;0;1; 1;0;0;0;1;
    1;1;1;0;0; 1;4;4;0;1; 0;0;0;0;0; 1;0;0;0;1;

    1;0;0;0;0; 0;0;0;0;5; 0;0;0;0;1; 1;0;0;0;1;
    1;0;0;0;0; 0;0;0;0;0; 0;0;0;0;1; 1;0;0;0;1;
    1;0;0;5;0; 0;0;0;0;0; 0;0;0;0;1; 1;0;0;0;1;
    1;0;0;1;1; 1;1;1;1;1; 1;1;1;1;1; 1;0;0;0;1;
    1;0;0;0;0; 1;0;0;0;0; 0;0;0;0;1; 1;0;0;0;1;

    1;0;0;0;0; 1;0;0;0;0; 0;0;0;0;0; 1;0;0;0;1;
    1;0;0;0;0; 5;0;0;0;5; 0;0;0;0;0; 5;0;0;0;1;
    1;0;0;0;0; 0;0;0;0;1; 0;0;0;0;0; 0;0;0;0;1;
    1;0;0;0;0; 0;0;0;0;1; 1;0;0;0;0; 0;0;0;0;1;
    1;1;1;1;1; 1;1;1;1;1; 1;1;1;1;1; 1;1;1;1;1 ]%Z.

(** [getTrackTileAt(col, row)].  The result of an array read is an
    [option]: [None] is JavaScript's [undefined]. *)
Definition getTrackTileAt (col row : Z) : option Z :=
  if ((col <? 0) || (col >=? COLS) || (row <? 0) || (row >=? ROWS))%Z
  then Some WALL
  else
    let index := (row * COLS + col)%Z in
    TRACK_GRID !! Z.to_nat index.

(** [isObstacle(col, row)]: [tileType !== ROAD]. *)
Definition isObstacle (col row : Z) : bool :=
  let tileType := getTrackTileAt col row in
  negb (bool_decide (tileType = Some ROAD)).

(** [worldToGrid(x, y)] returns [{col, row}]. *)
Definition worldToGrid (x y : R) : Z * Z :=
  (Math_floor (x / TILE_WIDTH), Math_floor (y / TILE_HEIGHT)).

(** [gridToWorld(col, row)] returns [{x, y}], the centre of the tile. *)
Definition gridToWorld (col row : R) : R * R :=
  (col * TILE_WIDTH + TILE_WIDTH / 2, row * TILE_HEIGHT + TILE_HEIGHT / 2).

End GameConfig.


(** ** The object store *)

(** The identity of an object (an entity or a component). *)
Abbreviation loc := positive.

(** A [{x, y}] object literal.  The source never shares one between two
    owners (it copies the coordinates), so it is modelled by value. *)
Record Vec2 := mkVec2 { vec_x : R; vec_y : R }.

(** The fields of [class Transform] (its constructor's parameters and
    [velocity]). *)
Record Transform := mkTransform {
  position : Vec2;
  rotation : R;
  scale : Vec2;
  velocity : Vec2
}.

(** The fields of [class Physics]. *)
Record Physics := mkPhysics {
  speed : R;
  maxSpeed : R;
  acceleration : R;
  friction : R;
  direction : Vec2;
  mass : R;
  bounce : R;
  isStatic : bool
}.

(** The fields of [class CarPhysics extends Physics]: the inherited ones
    ([base]) and its own.  [startPosition] starts as [null] and
    [previousPosition] as [undefined]: both are [None]. *)
Record CarPhysics := mkCarPhysics {
  base : Physics;
  startupTime : R;
  startupGracePeriod : R;
  hasMovedFromStart : bool;
  startPosition : option Vec2;
  previousPosition : option Vec2
}.

(** What a component is.  [BOther] stands for the components whose fields are
    not modelled (Sprite, CarInput, the plain data objects of [createEntity]);
    its flag tells whether the object has a [cleanup] method.  The other
    three kinds extend [class Component] and inherit its [cleanup]. *)
Inductive Body :=
  | BTransform (t : Transform)
  | BPhysics (p : Physics)
  | BCarPhysics (c : CarPhysics)
  | BOther (cleanup : bool).

(** A component object: its [entity] property ([None] for [null] or
    [undefined], which are falsy; an object reference is truthy) and the
    rest. *)
Record Component := mkComponent {
  entity : option loc;
  body : Body
}.

(** The fields of [class Entity]; the [components] Map holds references. *)
Record Entity := mkEntity {
  ent_id : option Z;
  components : gmap string loc;
  active : bool;
  tags : gset string
}.

(** The store: the entities, the component objects, and the calls of
    [cleanup] hooks made so far, oldest first. *)
Record World := mkWorld {
  entities : gmap loc Entity;
  objects : gmap loc Component;
  cleanup_calls : list loc
}.

(** Field updates ([o.f = v]). *)
Definition set_position (v : Vec2) (t : Transform) : Transform :=
  mkTransform v (rotation t) (scale t) (velocity t).
Definition set_velocity (v : Vec2) (t : Transform) : Transform :=
  mkTransform (position t) (rotation t) (scale t) v.
Definition set_speed (v : R) (p : Physics) : Physics :=
  mkPhysics v (maxSpeed p) (acceleration p) (friction p) (direction p)
    (mass p) (bounce p) (isStatic p).
Definition set_acceleration (v : R) (p : Physics) : Physics :=
  mkPhysics (speed p) (maxSpeed p) v (friction p) (direction p)
    (mass p) (bounce p) (isStatic p).
Definition set_direction (v : Vec2) (p : Physics) : Physics :=
  mkPhysics (speed p) (maxSpeed p) (acceleration p) (friction p) v
    (mass p) (bounce p) (isStatic p).
Definition set_base (v : Physics) (c : CarPhysics) : CarPhysics :=
  mkCarPhysics v (startupTime c) (startupGracePeriod c) (hasMovedFromStart c)
    (startPosition c) (previousPosition c).
Definition set_startupTime (v : R) (c : CarPhysics) : CarPhysics :=
  mkCarPhysics (base c) v (startupGracePeriod c) (hasMovedFromStart c)
    (startPosition c) (previousPosition c).
Definition set_hasMovedFromStart (v : bool) (c : CarPhysics) : CarPhysics :=
  mkCarPhysics (base c) (startupTime c) (startupGracePeriod c) v
    (startPosition c) (previousPosition c).
Definition set_startPosition (v : option Vec2) (c : CarPhysics) : CarPhysics :=
  mkCarPhysics (base c) (startupTime c) (startupGracePeriod c)
    (hasMovedFromStart c) v (previousPosition c).
Definition set_previousPosition (v : option Vec2) (c : CarPhysics) : CarPhysics :=
  mkCarPhysics (base c) (startupTime c) (startupGracePeriod c)
    (hasMovedFromStart c) (startPosition c) v.
Definition set_entity (v : option loc) (c : Component) : Component :=
  mkComponent v (body c).
Definition set_body (v : Body) (c : Component) : Component :=
  mkComponent (entity c) v.
Definition set_components (v : gmap string loc) (e : Entity) : Entity :=
  mkEntity (ent_id e) v (active e) (tags e).

(** Writing an object back into the store. *)
Definition store_object (l : loc) (c : Component) (w : World) : World :=
  mkWorld (entities w) (<[l := c]> (objects w)) (cleanup_calls w).
Definition store_entity (l : loc) (e : Entity) (w : World) : World :=
  mkWorld (<[l := e]> (entities w)) (objects w) (cleanup_calls w).

(** [component.cleanup] is truthy. *)
Definition has_cleanup (c : Component) : bool :=
  match body c with
  | BOther cleanup => cleanup
  | _ => true
  end.

(** Calling [component.cleanup()].  [Component.cleanup] has an empty body;
    the call is recorded and leaves the store as it is. *)
Definition call_cleanup (l : loc) (w : World) : World :=
  mkWorld (entities w) (objects w) (cleanup_calls w ++ [l]).

(** A method returns [None] where the JavaScript throws a TypeError or
    leaves the model: a reference that is not in the store, an [entity]
    property that is not an Entity, a 'Transform' entry that is not a
    Transform. *)

(** ** Entity.js *)

(** [new Entity()] *)
Definition new_Entity : Entity := mkEntity None ∅ true ∅.

(** [addComponent(componentName, component)] *)
Definition Entity_addComponent (this : loc) (componentName : string)
    (component : loc) (w : World) : option World :=
  e ← entities w !! this;
  c ← objects w !! component;
  let w := store_entity this
             (set_components (<[componentName := component]> (components e)) e) w in
  (* if (!component.entity) component.entity = this *)
  let w := match entity c with
           | None => store_object component (set_entity (Some this) c) w
           | Some _ => w
           end in
  Some w.

(** [removeComponent(componentName)] *)
Definition Entity_removeComponent (this : loc) (componentName : string)
    (w : World) : option World :=
  e ← entities w !! this;
  match components e !! componentName with
  | Some component =>
      c ← objects w !! component;
      let w := if has_cleanup c then call_cleanup component w else w in
      Some (store_entity this
              (set_components (delete componentName (components e)) e) w)
  | None => Some w
  end.

(** [getComponent(componentName)]; [None] is [undefined]. *)
Definition Entity_getComponent (e : Entity) (componentName : string) : option loc :=
  components e !! componentName.

(** [hasComponent(componentName)] *)
Definition Entity_hasComponent (e : Entity) (componentName : string) : bool :=
  bool_decide (is_Some (components e !! componentName)).

(** [hasComponents(componentNames)] *)
Definition Entity_hasComponents (e : Entity) (componentNames : list string) : bool :=
  forallb (Entity_hasComponent e) componentNames.

(** ** The components: Transform and Physics *)

(** [Transform.setPosition(x, y)] *)
Definition Transform_setPosition (x y : R) (t : Transform) : Transform :=
  set_position (mkVec2 x y) t.

(** [Transform.update(deltaTime)] *)
Definition Transform_update (deltaTime : R) (t : Transform) : Transform :=
  set_position
    (mkVec2 (vec_x (position t) + vec_x (velocity t) * deltaTime)
            (vec_y (position t) + vec_y (velocity t) * deltaTime)) t.

(** [new Physics(speed, maxSpeed, acceleration, friction)] *)
Definition new_Physics (speed maxSpeed acceleration friction : R) : Physics :=
  mkPhysics speed maxSpeed acceleration friction (mkVec2 1 0) 1 (1 / 2) false.

(** The Physics fields of an object, for the methods that CarPhysics
    inherits, and their update in place. *)
Definition physics_of (b : Body) : option Physics :=
  match b with
  | BPhysics p => Some p
  | BCarPhysics c => Some (base c)
  | _ => None
  end.

Definition with_physics (p : Physics) (b : Body) : Body :=
  match b with
  | BPhysics _ => BPhysics p
  | BCarPhysics c => BCarPhysics (set_base p c)
  | _ => b
  end.

(** The test [this.entity && this.entity.hasComponent('Transform')] followed
    by [this.entity.getComponent('Transform')], for a component whose
    [entity] property is [owner]: [Some None] when the test fails,
    [Some (Some (l, c, t))] when the Transform is the object [c] at [l] with
    fields [t]. *)
Definition owner_transform (owner : option loc) (w : World)
    : option (option (loc * Component * Transform)) :=
  match owner with
  | None => Some None
  | Some e =>
      ent ← entities w !! e;
      if Entity_hasComponent ent "Transform" then
        l ← Entity_getComponent ent "Transform";
        c ← objects w !! l;
        match body c with
        | BTransform t => Some (Some (l, c, t))
        | _ => None
        end
      else Some None
  end.

(** [Physics.applyForce(forceX, forceY)], on the fields of [this]. *)
Definition Physics_applyForce_body (forceX forceY : R) (p : Physics) : Physics :=
  if negb (isStatic p) then
    let magnitude := sqrt (forceX * forceX + forceY * forceY) in
    if bool_decide (magnitude > 0) then
      set_acceleration (acceleration p + magnitude / mass p) p
    else p
  else p.

(** [Physics.setDirection(x, y)], on the fields of [this]. *)
Definition Physics_setDirection_body (x y : R) (p : Physics) : Physics :=
  let magnitude := sqrt (x * x + y * y) in
  if bool_decide (magnitude > 0) then
    set_direction (mkVec2 (x / magnitude) (y / magnitude)) p
  else p.

(** [Physics.update(deltaTime)], on the fields [p] of [this], whose [entity]
    property is [owner], and the store. *)
Definition Physics_update_body (owner : option loc) (deltaTime : R)
    (p : Physics) (w : World) : option (Physics * World) :=
  if isStatic p then Some (p, w)
  else
    let p := set_speed (speed p + acceleration p * deltaTime) p in
    let p := set_speed (speed p * friction p) p in
    let p := set_speed (Rmin (speed p) (maxSpeed p)) p in
    r ← owner_transform owner w;
    let w :=
      match r with
      | Some (l, c, transform) =>
          store_object l
            (set_body
               (BTransform
                  (set_velocity
                     (mkVec2 (vec_x (direction p) * speed p)
                             (vec_y (direction p) * speed p)) transform)) c) w
      | None => w
      end in
    Some (set_acceleration 0 p, w).

(** The three methods of [class Physics] run on the object at [this], a
    Physics or a CarPhysics.  On a CarPhysics, [Physics_update] is what
    [super.update(deltaTime)] runs; a call of [update] on it runs
    [CarPhysics_update] below. *)
Definition Physics_applyForce (this : loc) (forceX forceY : R) (w : World)
    : option World :=
  c ← objects w !! this;
  p ← physics_of (body c);
  Some (store_object this
          (set_body (with_physics (Physics_applyForce_body forceX forceY p) (body c)) c) w).

Definition Physics_setDirection (this : loc) (x y : R) (w : World)
    : option World :=
  c ← objects w !! this;
  p ← physics_of (body c);
  Some (store_object this
          (set_body (with_physics (Physics_setDirection_body x y p) (body c)) c) w).

Definition Physics_update (this : loc) (deltaTime : R) (w : World)
    : option World :=
  c ← objects w !! this;
  p ← physics_of (body c);
  '(p', w') ← Physics_update_body (entity c) deltaTime p w;
  Some (store_object this (set_body (with_physics p' (body c)) c) w').

(** ** Car.js: CarPhysics *)

(** [new CarPhysics()] *)
Definition new_CarPhysics : CarPhysics :=
  let p := new_Physics 0 100 0 (9 / 10) in
  let p := mkPhysics (speed p) GameConfig.MAX_SPEED (acceleration p)
             GameConfig.GROUND_SPEED_DECAY (direction p) (mass p) (bounce p)
             (isStatic p) in
  mkCarPhysics p 0 2000 false None None.

(** [CarPhysics.checkTrackCollision()], on the fields of [this]. *)
Definition CarPhysics_checkTrackCollision_body (owner : option loc)
    (cp : CarPhysics) (w : World) : option (CarPhysics * World) :=
  r ← owner_transform owner w;
  match r with
  | None => Some (cp, w)
  | Some (l, c, transform) =>
      let gridPos :=
        GameConfig.worldToGrid (vec_x (position transform))
                               (vec_y (position transform)) in
      if GameConfig.isObstacle (fst gridPos) (snd gridPos) then
        let w :=
          match previousPosition cp with
          | Some pp =>
              store_object l
                (set_body
                   (BTransform
                      (Transform_setPosition (vec_x pp) (vec_y pp) transform)) c) w
          | None => w
          end in
        Some (set_base
                (set_speed (speed (base cp) * GameConfig.COLLISION_BOUNCE)
                   (base cp)) cp, w)
      else Some (cp, w)
  end.

(** The statements of [CarPhysics.update(deltaTime)] before the collision
    test: the start position and the latch, the previous position, the
    startup clock, and [super.update(deltaTime)]. *)
Definition CarPhysics_update_before_check (owner : option loc)
    (deltaTime : R) (cp : CarPhysics) (w : World)
    : option (CarPhysics * World) :=
  r ← owner_transform owner w;
  let cp :=
    match r with
    | Some (_, _, transform) =>
        (* if (!this.startPosition) this.startPosition = {x, y} *)
        let cp :=
          match startPosition cp with
          | None =>
              set_startPosition
                (Some (mkVec2 (vec_x (position transform))
                              (vec_y (position transform)))) cp
          | Some _ => cp
          end in
        let start := default (position transform) (startPosition cp) in
        let distanceFromStart :=
          sqrt ((vec_x (position transform) - vec_x start) ^ 2 +
                (vec_y (position transform) - vec_y start) ^ 2) in
        let cp :=
          if bool_decide (distanceFromStart > 20)
          then set_hasMovedFromStart true cp
          else cp in
        set_previousPosition
          (Some (mkVec2 (vec_x (position transform))
                        (vec_y (position transform)))) cp
    | None => cp
    end in
  let cp := set_startupTime (startupTime cp + deltaTime * 1000) cp in
  '(p, w) ← Physics_update_body owner deltaTime (base cp) w;
  Some (set_base p cp, w).

(** [CarPhysics.update(deltaTime)], on the fields of [this]. *)
Definition CarPhysics_update_body (owner : option loc) (deltaTime : R)
    (cp : CarPhysics) (w : World) : option (CarPhysics * World) :=
  '(cp, w) ← CarPhysics_update_before_check owner deltaTime cp w;
  if bool_decide (startupTime cp > startupGracePeriod cp) && hasMovedFromStart cp
  then CarPhysics_checkTrackCollision_body owner cp w
  else Some (cp, w).

(** [CarPhysics.update(deltaTime)] called on the object at [this]. *)
Definition CarPhysics_update (this : loc) (deltaTime : R) (w : World)
    : option World :=
  c ← objects w !! this;
  match body c with
  | BCarPhysics cp =>
      '(cp', w') ← CarPhysics_update_body (entity c) deltaTime cp w;
      Some (store_object this (set_body (BCarPhysics cp') c) w')
  | _ => None
  end.

(** ** Reading the store *)

(** The Physics fields of the object at [l]. *)
Definition physics_at (w : World) (l : loc) : option Physics :=
  c ← objects w !! l; physics_of (body c).

(** The Transform fields of the object at [l]. *)
Definition transform_at (w : World) (l : loc) : option Transform :=
  c ← objects w !! l;
  match body c with BTransform t => Some t | _ => None end.

(** The CarPhysics fields of the object at [l]. *)
Definition car_at (w : World) (l : loc) : option CarPhysics :=
  c ← objects w !! l;
  match body c with BCarPhysics cp => Some cp | _ => None end.

(** The grid cell of a position and whether it is an obstacle, as
    [checkTrackCollision] computes them. *)
Definition cell_of (v : Vec2) : Z * Z :=
  GameConfig.worldToGrid (vec_x v) (vec_y v).

Definition on_obstacle (v : Vec2) : bool :=
  GameConfig.isObstacle (fst (cell_of v)) (snd (cell_of v)).

(** ** Sequences of calls on a Physics component *)

(** A call of [update(deltaTime)] or of [applyForce(forceX, forceY)]. *)
Inductive physics_call :=
  | CallUpdate (deltaTime : R)
  | CallApplyForce (forceX forceY : R).

Definition run_call (this : loc) (k : physics_call) (w : World) : option World :=
  match k with
  | CallUpdate deltaTime => Physics_update this deltaTime w
  | CallApplyForce forceX forceY => Physics_applyForce this forceX forceY w
  end.

(** The calls of [ks] made in order on the component at [this]. *)
Fixpoint run_calls (this : loc) (ks : list physics_call) (w : World)
    : option World :=
  match ks with
  | [] => Some w
  | k :: ks => w' ← run_call this k w; run_calls this ks w'
  end.

(** What one call keeps and what it establishes, on a component that is not
    static and whose owner lookup is well defined. *)
Definition physics_ready (this : loc) (owner : option loc) (M : R)
    (w : World) (p : Physics) : Prop :=
  (exists c, objects w !! this = Some c
             /\ physics_of (body c) = Some p /\ entity c = owner)
  /\ is_Some (owner_transform owner w)
  /\ isStatic p = false
  /\ maxSpeed p = M.

(** ** Sample stores

    In [sample_world] the entity at 1 holds a Transform (at 2) and a Physics
    (at 3), both attached to it.  The Physics at 4 is attached to nothing
    yet, the one at 5 is attached to the entity at 9, and the one at 6 is
    static. *)
Definition sample_transform : Transform :=
  mkTransform (mkVec2 0 0) 0 (mkVec2 1 1) (mkVec2 0 0).

Definition sample_physics : Physics := new_Physics 10 100 0 (9 / 10).

Definition static_physics : Physics :=
  mkPhysics 10 100 5 (9 / 10) (mkVec2 1 0) 1 (1 / 2) true.

Definition sample_entity : Entity :=
  mkEntity (Some 0%Z)
    {[ "Transform" := 2%positive; "Physics" := 3%positive ]} true ∅.

Definition sample_world : World :=
  mkWorld
    {[ 1%positive := sample_entity;
       9%positive := mkEntity (Some 1%Z) ∅ true ∅ ]}
    {[ 2%positive := mkComponent (Some 1%positive) (BTransform sample_transform);
       3%positive := mkComponent (Some 1%positive) (BPhysics sample_physics);
       4%positive := mkComponent None (BPhysics sample_physics);
       5%positive := mkComponent (Some 9%positive) (BPhysics sample_physics);
       6%positive := mkComponent (Some 1%positive) (BPhysics static_physics) ]}
    [].

(** A car: the entity at 1 holds a Transform (at 2) placed at (20, 20), in
    the wall cell (0, 0) of the track, and the CarPhysics [cp] (at 3). *)
Definition wall_transform : Transform :=
  mkTransform (mkVec2 20 20) 0 (mkVec2 1 1) (mkVec2 0 0).

Definition car_world (cp : CarPhysics) : World :=
  mkWorld
    {[ 1%positive := sample_entity ]}
    {[ 2%positive := mkComponent (Some 1%positive) (BTransform wall_transform);
       3%positive := mkComponent (Some 1%positive) (BCarPhysics cp) ]}
    [].

(** A car that has been driving for three seconds at speed 50 and left its
    start at (100, 100). *)
Definition driving_car : CarPhysics :=
  mkCarPhysics
    (mkPhysics 50 GameConfig.MAX_SPEED 0 GameConfig.GROUND_SPEED_DECAY
       (mkVec2 1 0) 1 (1 / 2) false)
    3000 2000 true (Some (mkVec2 100 100)) (Some (mkVec2 60 60)).

(** ** The engine: Game *)

Module Game.

Local Open Scope Q_scope.

(** What the loop does to the outside: a call of [this.update(dt)], a call
    of [this.render()], a call of [requestAnimationFrame(this.gameLoop)]. *)
Inductive event :=
  | Update (dt : Q)
  | Render
  | RequestAnimationFrame.

(** The timing state of [class Game] and the calls made so far, oldest
    first. *)
Record Game := mkGame {
  isRunning : bool;
  lastFrameTime : Q;
  targetFPS : Q;
  frameInterval : Q;
  trace : list event
}.

Definition emit (e : event) (g : Game) : Game :=
  mkGame (isRunning g) (lastFrameTime g) (targetFPS g) (frameInterval g)
    (trace g ++ [e]).
Definition set_isRunning (v : bool) (g : Game) : Game :=
  mkGame v (lastFrameTime g) (targetFPS g) (frameInterval g) (trace g).
Definition set_lastFrameTime (v : Q) (g : Game) : Game :=
  mkGame (isRunning g) v (targetFPS g) (frameInterval g) (trace g).

(** The remainder operator [a % b] of JavaScript: [a - b * trunc(a / b)],
    with the quotient truncated towards zero. *)
Definition js_rem (a b : Q) : Q :=
  a - b * inject_Z (Z.quot (Qnum (a / b)) (Zpos (Qden (a / b)))).

(** [new Game(canvas)] *)
Definition new_Game : Game :=
  let targetFPS := 60 in
  mkGame false 0 targetFPS (1000 / targetFPS) [].

(** [update(deltaTime)] and [render()] hand over to the scene and the
    systems, which do not touch the timing state. *)
Definition update (deltaTime : Q) (g : Game) : Game := emit (Update deltaTime) g.
Definition render (g : Game) : Game := emit Render g.

(** [start()], with [now] the value of [performance.now()]. *)
Definition start (now : Q) (g : Game) : Game :=
  if isRunning g then g
  else
    let g := set_isRunning true g in
    let g := set_lastFrameTime now g in
    emit RequestAnimationFrame g.

(** [stop()] *)
Definition stop (g : Game) : Game := set_isRunning false g.

(** [gameLoop(currentTime)] *)
Definition gameLoop (currentTime : Q) (g : Game) : Game :=
  if negb (isRunning g) then g
  else
    let deltaTime := currentTime - lastFrameTime g in
    let g :=
      if Qle_bool (frameInterval g) deltaTime then
        let dt := deltaTime / 1000 in
        let g := update dt g in
        let g := render g in
        set_lastFrameTime (currentTime - js_rem deltaTime (frameInterval g)) g
      else g in
    emit RequestAnimationFrame g.

(** The host calling back with the given timestamps, in order. *)
Definition callbacks (times : list Q) (g : Game) : Game :=
  fold_left (fun g t => gameLoop t g) times g.

(** The calls one callback at [currentTime] makes: what it appends to the
    trace. *)
Definition calls_of (currentTime : Q) (g : Game) : list event :=
  drop (length (trace g)) (trace (gameLoop currentTime g)).

Definition is_update (e : event) : bool :=
  match e with Update _ => true | _ => false end.
Definition is_render (e : event) : bool :=
  match e with Render => true | _ => false end.

(** The number of update and of render invocations among some calls. *)
Definition updates (es : list event) : nat := length (filter is_update es).
Definition renders (es : list event) : nat := length (filter is_render es).

End Game.

(** * More of the sources *)

(** ** The engine: the callbacks of a session *)

(** Timestamps that do not run backwards: each one is at or after the one
    before it, the first one at or after [t0]. *)
Fixpoint nondecreasing_from (t0 : Q) (times : list Q) : Prop :=
  match times with
  | [] => True
  | t :: times => (t0 <= t)%Q /\ nondecreasing_from t times
  end.

(** The time step of every [update] call among some calls is at least [d]. *)
Definition steps_at_least (d : Q) (es : list Game.event) : Prop :=
  Forall (fun e => match e with Game.Update dt => (d <= dt)%Q | _ => True end) es.

(** The integer quotient [trunc(a / b)] that [a % b] subtracts. *)
Definition js_quot (a b : Q) : Z :=
  Z.quot (Qnum (a / b)) (Zpos (Qden (a / b))).

(** ** Physics: directions and runs of calls *)

(** A vector of length 1. *)
Definition unit_vector (v : Vec2) : Prop :=
  vec_x v * vec_x v + vec_y v * vec_y v = 1.

(** The sum of the magnitudes of some forces [(fx, fy)]. *)
Fixpoint total_magnitude (forces : list (R * R)) : R :=
  match forces with
  | [] => 0
  | (fx, fy) :: forces => sqrt (fx * fx + fy * fy) + total_magnitude forces
  end.

(** One [applyForce] call per force, in order. *)
Definition force_calls (forces : list (R * R)) : list physics_call :=
  map (fun f => CallApplyForce (fst f) (snd f)) forces.

(** One [update] call per time step, in order, with no force in between. *)
Definition update_calls (steps : list R) : list physics_call :=
  map CallUpdate steps.

(** ** GameConfig.js: the start positions *)

(** A [{x, y, angle}] object. *)
Record StartPosition := mkStartPosition {
  start_x : R;
  start_y : R;
  start_angle : R
}.

(** [GameConfig.CAR.START.ANGLE] *)
Definition START_ANGLE : R := PI / 2.

(** [getPlayerStartPositions()]: the rows from the top, the columns from the
    left, one entry per tile of type PLAYER_START. *)
Definition getPlayerStartPositions : list StartPosition :=
  row ← seqZ 0 GameConfig.ROWS;
  col ← seqZ 0 GameConfig.COLS;
  if bool_decide (GameConfig.getTrackTileAt col row = Some GameConfig.PLAYER_START)
  then
    let worldPos := GameConfig.gridToWorld (IZR col) (IZR row) in
    [mkStartPosition (fst worldPos) (snd worldPos) START_ANGLE]
  else [].

(** ** The systems: MovementSystem *)

(** A call [obj.update(deltaTime)] on a component object: the method of its
    class.  The class of a [BOther] object is not modelled, so the call is
    outside the model there. *)
Definition Component_update (l : loc) (deltaTime : R) (w : World)
    : option World :=
  c ← objects w !! l;
  match body c with
  | BTransform t =>
      Some (store_object l
              (set_body (BTransform (Transform_update deltaTime t)) c) w)
  | BPhysics _ => Physics_update l deltaTime w
  | BCarPhysics _ => CarPhysics_update l deltaTime w
  | BOther _ => None
  end.

(** The body of the [forEach] callback of [MovementSystem.update], for one
    entity. *)
Definition MovementSystem_update_entity (entity : loc) (deltaTime : R)
    (w : World) : option World :=
  e ← entities w !! entity;
  if Entity_hasComponents e ["Transform"; "Physics"] && active e then
    transform ← Entity_getComponent e "Transform";
    physics ← Entity_getComponent e "Physics";
    (* Update physics first, then update transform *)
    w ← Component_update physics deltaTime w;
    Component_update transform deltaTime w
  else Some w.



(** ** InputManager.js *)

(** The fields of [class InputManager] that hold input state.  The Maps
    [keys], [previousKeys] and [actionStates] hold booleans. *)
Record InputManager := mkInputManager {
  keys : gmap string bool;
  previousKeys : gmap string bool;
  keyMappings : gmap string string;
  actionStates : gmap string bool;
  buttons : gmap Z bool;
  previousButtons : gmap Z bool
}.

(** [new InputManager()] *)
Definition new_InputManager : InputManager :=
  mkInputManager ∅ ∅ ∅ ∅ ∅ ∅.

(** [isKeyDown(keyCode)]: [this.keys.get(keyCode) === true]. *)
Definition isKeyDown (im : InputManager) (keyCode : string) : bool :=
  bool_decide (keys im !! keyCode = Some true).

(** [isKeyPressed(keyCode)] *)
Definition isKeyPressed (im : InputManager) (keyCode : string) : bool :=
  bool_decide (keys im !! keyCode = Some true)
  && negb (bool_decide (previousKeys im !! keyCode = Some true)).

(** [isKeyReleased(keyCode)] *)
Definition isKeyReleased (im : InputManager) (keyCode : string) : bool :=
  negb (bool_decide (keys im !! keyCode = Some true))
  && bool_decide (previousKeys im !! keyCode = Some true).

(** [isActionDown(action)] *)
Definition isActionDown (im : InputManager) (action : string) : bool :=
  bool_decide (actionStates im !! action = Some true).

(** A string is truthy when it is not empty. *)
Definition truthy_string (s : string) : bool :=
  negb (bool_decide (s = "")).

(** [isActionPressed(action)]: [keyCode ? this.isKeyPressed(keyCode) : false] *)
Definition isActionPressed (im : InputManager) (action : string) : bool :=
  match keyMappings im !! action with
  | Some keyCode => if truthy_string keyCode then isKeyPressed im keyCode else false
  | None => false
  end.

(** [isActionReleased(action)] *)
Definition isActionReleased (im : InputManager) (action : string) : bool :=
  match keyMappings im !! action with
  | Some keyCode => if truthy_string keyCode then isKeyReleased im keyCode else false
  | None => false
  end.

(** [isGameKey(keyCode)]: the key is mapped to some action. *)
Definition isGameKey (im : InputManager) (keyCode : string) : bool :=
  bool_decide (keyCode ∈ (map_to_list (keyMappings im)).*2).

(** [update()], called once per frame. *)
Definition InputManager_update (im : InputManager) : InputManager :=
  mkInputManager (keys im) (keys im) (keyMappings im)
    ((fun keyCode => isKeyDown im keyCode) <$> keyMappings im)
    (buttons im) (buttons im).

(** [handleKeyDown(event)] and [handleKeyUp(event)], with [code] the
    [event.code]; [event.preventDefault()] is called when [isGameKey(code)]. *)
Definition handleKeyDown (code : string) (im : InputManager) : InputManager :=
  mkInputManager (<[code := true]> (keys im)) (previousKeys im)
    (keyMappings im) (actionStates im) (buttons im) (previousButtons im).

Definition handleKeyUp (code : string) (im : InputManager) : InputManager :=
  mkInputManager (<[code := false]> (keys im)) (previousKeys im)
    (keyMappings im) (actionStates im) (buttons im) (previousButtons im).

(** [mapAction(action, keyCode)] *)
Definition mapAction (action keyCode : string) (im : InputManager)
    : InputManager :=
  mkInputManager (keys im) (previousKeys im)
    (<[action := keyCode]> (keyMappings im)) (actionStates im) (buttons im)
    (previousButtons im).

(** [mapActions(mappings)], with the entries of [mappings] in order. *)
Definition mapActions (mappings : list (string * string)) (im : InputManager)
    : InputManager :=
  fold_left (fun im m => mapAction (fst m) (snd m) im) mappings im.

(** [clearInputs()] *)
Definition clearInputs (im : InputManager) : InputManager :=
  mkInputManager ∅ ∅ (keyMappings im) ∅ ∅ ∅.

(** A key event between two frames. *)
Inductive key_event :=
  | KeyDown (code : string)
  | KeyUp (code : string).

Definition handle_key_event (ev : key_event) (im : InputManager)
    : InputManager :=
  match ev with
  | KeyDown code => handleKeyDown code im
  | KeyUp code => handleKeyUp code im
  end.

(** The events of [evs] handled in order. *)
Definition handle_key_events (evs : list key_event) (im : InputManager)
    : InputManager :=
  fold_left (fun im ev => handle_key_event ev im) evs im.

(** ** Car.js: CarInput *)

(** [GameConfig.CAR.PHYSICS], the constants of the control law. *)
Definition DRIVE_POWER : R := 100.
Definition REVERSE_POWER : R := 50.
Definition BRAKE_POWER : R := 92 / 100.
Definition ACTIVE_BRAKE_POWER : R := 85 / 100.
Definition TURN_RATE : R := 6 / 100.

(** The [keyBindings] object [{ up, down, left, right }]. *)
Record KeyBindings := mkKeyBindings {
  binding_up : string;
  binding_down : string;
  binding_left : string;
  binding_right : string
}.

(** The fields of [class CarInput]. *)
Record CarInput := mkCarInput {
  keyBindings : KeyBindings;
  gasPressed : bool;
  reversePressed : bool;
  leftPressed : bool;
  rightPressed : bool
}.

(** [new CarInput(keyBindings)] *)
Definition new_CarInput (keyBindings : KeyBindings) : CarInput :=
  mkCarInput keyBindings false false false false.

Definition set_rotation (v : R) (t : Transform) : Transform :=
  mkTransform (position t) v (scale t) (velocity t).

(** [Transform.rotate(angle)] *)
Definition Transform_rotate (angle : R) (t : Transform) : Transform :=
  set_rotation (rotation t + angle) t.

(** [Transform.move(dx, dy)] *)
Definition Transform_move (dx dy : R) (t : Transform) : Transform :=
  set_position
    (mkVec2 (vec_x (position t) + dx) (vec_y (position t) + dy)) t.

(** [CarInput.applyInputToPhysics()] past its guard, on the fields of the
    Physics and of the Transform of the entity, two distinct objects. *)
Definition CarInput_applyInputToPhysics_body (input : CarInput)
    (physics : Physics) (transform : Transform) : Physics * Transform :=
  (* Apply driving forces *)
  let physics :=
    if gasPressed input then
      let forceX := cos (rotation transform) * DRIVE_POWER in
      let forceY := sin (rotation transform) * DRIVE_POWER in
      Physics_applyForce_body forceX forceY physics
    else physics in
  let physics :=
    if reversePressed input then
      if bool_decide (speed physics > 2) then
        set_speed (speed physics * ACTIVE_BRAKE_POWER) physics
      else if bool_decide (speed physics > -1) then
        let forceX := - cos (rotation transform) * REVERSE_POWER in
        let forceY := - sin (rotation transform) * REVERSE_POWER in
        Physics_applyForce_body forceX forceY physics
      else physics
    else physics in
  (* Apply extra braking when no input is pressed *)
  let physics :=
    if negb (gasPressed input) && negb (reversePressed input) then
      set_speed (speed physics * BRAKE_POWER) physics
    else physics in
  (* Apply turning *)
  let transform :=
    if leftPressed input then Transform_rotate (- TURN_RATE) transform
    else transform in
  let transform :=
    if rightPressed input then Transform_rotate TURN_RATE transform
    else transform in
  (* Update physics direction to match car rotation *)
  let physics :=
    Physics_setDirection_body (cos (rotation transform))
      (sin (rotation transform)) physics in
  (physics, transform).

(** [CarInput.applyInputToPhysics()] for an input component whose [entity]
    property is [owner]. *)
Definition CarInput_applyInputToPhysics (owner : loc) (input : CarInput)
    (w : World) : option World :=
  e ← entities w !! owner;
  match Entity_getComponent e "Physics", Entity_getComponent e "Transform" with
  | Some physics, Some transform =>
      pc ← objects w !! physics;
      p ← physics_of (body pc);
      tc ← objects w !! transform;
      match body tc with
      | BTransform t =>
          let '(p', t') := CarInput_applyInputToPhysics_body input p t in
          Some (store_object transform (set_body (BTransform t') tc)
                  (store_object physics
                     (set_body (with_physics p' (body pc)) pc) w))
      | _ => None
      end
  | _, _ => Some w
  end.

(** [CarInput.update(deltaTime, inputManager)]; [None] for the manager is a
    missing argument. *)
Definition CarInput_update (owner : option loc) (input : CarInput)
    (deltaTime : R) (inputManager : option InputManager) (w : World)
    : option (CarInput * World) :=
  match owner, inputManager with
  | Some entity, Some im =>
      let input :=
        mkCarInput (keyBindings input)
          (isActionDown im (binding_up (keyBindings input)))
          (isActionDown im (binding_down (keyBindings input)))
          (isActionDown im (binding_left (keyBindings input)))
          (isActionDown im (binding_right (keyBindings input))) in
      e ← entities w !! entity;
      if Entity_hasComponent e "Physics" then
        w ← CarInput_applyInputToPhysics entity input w;
        Some (input, w)
      else Some (input, w)
  | _, _ => Some (input, w)
  end.

(** ** The engine: the entity registry of [class Game] *)

(** A JavaScript [Map] with integer keys, as the list of its entries in
    insertion order. *)
Definition jsmap_get {V : Type} (k : Z) (m : list (Z * V)) : option V :=
  snd <$> List.find (fun kv => bool_decide (fst kv = k)) m.

Definition jsmap_has {V : Type} (k : Z) (m : list (Z * V)) : bool :=
  bool_decide (is_Some (jsmap_get k m)).

(** [m.set(k, v)]: an existing key keeps its place, a new one goes last. *)
Fixpoint jsmap_set {V : Type} (k : Z) (v : V) (m : list (Z * V))
    : list (Z * V) :=
  match m with
  | [] => [(k, v)]
  | kv :: m => if bool_decide (fst kv = k) then (k, v) :: m
               else kv :: jsmap_set k v m
  end.

Definition jsmap_delete {V : Type} (k : Z) (m : list (Z * V)) : list (Z * V) :=
  List.filter (fun kv => negb (bool_decide (fst kv = k))) m.

(** The fields [entities] and [nextEntityId] of [class Game]. *)
Record GameEntities := mkGameEntities {
  game_entities : list (Z * loc);
  nextEntityId : Z
}.

(** As [new Game(canvas)] leaves them. *)
Definition new_GameEntities : GameEntities := mkGameEntities [] 0.

Definition set_ent_id (v : option Z) (e : Entity) : Entity :=
  mkEntity v (components e) (active e) (tags e).

(** [addEntity(entity)] returns the id. *)
Definition Game_addEntity (entity : loc) (g : GameEntities) (w : World)
    : option (Z * GameEntities * World) :=
  let id := nextEntityId g in
  let g := mkGameEntities (game_entities g) (nextEntityId g + 1) in
  e ← entities w !! entity;
  let w := store_entity entity (set_ent_id (Some id) e) w in
  let g := mkGameEntities (jsmap_set id entity (game_entities g))
             (nextEntityId g) in
  Some (id, g, w).

(** [removeEntity(entityId)] *)
Definition Game_removeEntity (entityId : Z) (g : GameEntities) : GameEntities :=
  if jsmap_has entityId (game_entities g) then
    mkGameEntities (jsmap_delete entityId (game_entities g)) (nextEntityId g)
  else g.

(** [getEntity(entityId)]; [None] is [undefined]. *)
Definition Game_getEntity (entityId : Z) (g : GameEntities) : option loc :=
  jsmap_get entityId (game_entities g).

(** [getEntitiesWithComponent(componentName)] *)
Definition Game_getEntitiesWithComponent (componentName : string)
    (g : GameEntities) (w : World) : list loc :=
  List.filter
    (fun entity =>
       match entities w !! entity with
       | Some e => Entity_hasComponent e componentName
       | None => false
       end)
    (map snd (game_entities g)).

(** A call on the registry: [addEntity(entity)] or [removeEntity(id)]. *)
Inductive registry_call :=
  | AddEntity (entity : loc)
  | RemoveEntity (entityId : Z).

(** The calls made in order; the result holds the ids that the [addEntity]
    calls returned, oldest first. *)
Fixpoint run_registry (calls : list registry_call) (g : GameEntities)
    (w : World) : option (list Z * GameEntities * World) :=
  match calls with
  | [] => Some ([], g, w)
  | AddEntity entity :: calls =>
      '(id, g, w) ← Game_addEntity entity g w;
      '(ids, g, w) ← run_registry calls g w;
      Some (id :: ids, g, w)
  | RemoveEntity entityId :: calls =>
      run_registry calls (Game_removeEntity entityId g) w
  end.

(** Every id in the registry was issued before: it is below
    [nextEntityId]. *)
Definition ids_issued (g : GameEntities) : Prop :=
  Forall (fun kv => (fst kv < nextEntityId g)%Z) (game_entities g).

(** The number of [addEntity] calls among some calls. *)
Definition count_adds (calls : list registry_call) : nat :=
  length (List.filter (fun c => match c with AddEntity _ => true | _ => false end)
            calls).

(** ** TrackRenderSystem.js *)

(** A loaded image, by identity. *)
Abbreviation image := positive.

(** The calls made on the canvas context. *)
Inductive canvas_call :=
  | DrawImage (img : image) (dx dy dw dh : R)
  | FillStyle (color : string)
  | FillRect (x y w h : R).

(** [drawFallbackTile(ctx, tileType, x, y)]; [None] is a tile type that is
    [undefined]. *)
Definition drawFallbackTile (tileType : option Z) (x y : R)
    : list canvas_call :=
  let color :=
    if bool_decide (tileType = Some GameConfig.ROAD)
       || bool_decide (tileType = Some GameConfig.PLAYER_START)
    then "#404040"
    else if bool_decide (tileType = Some GameConfig.WALL) then "#8B4513"
    else if bool_decide (tileType = Some GameConfig.GOAL) then "#FFD700"
    else if bool_decide (tileType = Some GameConfig.FLAG) then "#FF0000"
    else if bool_decide (tileType = Some GameConfig.TREE) then "#228B22"
    else "#808080" in
  [FillStyle color; FillRect x y GameConfig.TILE_WIDTH GameConfig.TILE_HEIGHT].

(** The body of the inner loop of [renderTrackGrid]: the calls for one tile,
    with [tileImages] the Map from tile type to image. *)
Definition draw_tile (tileImages : gmap Z image) (tileType : option Z)
    (drawX drawY : R) : list canvas_call :=
  let tileImage := t ← tileType; tileImages !! t in
  match tileImage with
  | Some img =>
      [DrawImage img drawX drawY GameConfig.TILE_WIDTH GameConfig.TILE_HEIGHT]
  | None => drawFallbackTile tileType drawX drawY
  end.

(** The inner loop of [renderTrackGrid] with [n] columns to go, from the
    values [arrayIndex], [drawX] of its variables. *)
Fixpoint renderTrackGrid_cols (tileImages : gmap Z image) (n : nat)
    (arrayIndex : nat) (drawX drawY : R) : list canvas_call :=
  match n with
  | O => []
  | S n =>
      let tileType := GameConfig.TRACK_GRID !! arrayIndex in
      draw_tile tileImages tileType drawX drawY
      ++ renderTrackGrid_cols tileImages n (S arrayIndex)
           (drawX + GameConfig.TILE_WIDTH) drawY
  end.

(** The outer loop with [n] rows to go; each row starts at [drawX = 0]. *)
Fixpoint renderTrackGrid_rows (tileImages : gmap Z image) (n : nat)
    (arrayIndex : nat) (drawY : R) : list canvas_call :=
  match n with
  | O => []
  | S n =>
      renderTrackGrid_cols tileImages (Z.to_nat GameConfig.COLS) arrayIndex 0
        drawY
      ++ renderTrackGrid_rows tileImages n
           (arrayIndex + Z.to_nat GameConfig.COLS)
           (drawY + GameConfig.TILE_HEIGHT)
  end.

(** [renderTrackGrid(ctx)] *)
Definition renderTrackGrid (tileImages : gmap Z image) : list canvas_call :=
  renderTrackGrid_rows tileImages (Z.to_nat GameConfig.ROWS) 0 0.

(** ** Car.js: createCar *)

(** [new C(...)]: the object gets a location that is not in the store. *)
Definition alloc_object (c : Component) (w : World) : loc * World :=
  let l := fresh (dom (objects w)) in
  (l, store_object l c w).

Definition alloc_entity (e : Entity) (w : World) : loc * World :=
  let l := fresh (dom (entities w)) in
  (l, store_entity l e w).

(** [new Transform(x, y, rotation)], with the default scale. *)
Definition new_Transform (x y rotation : R) : Transform :=
  mkTransform (mkVec2 x y) rotation (mkVec2 1 1) (mkVec2 0 0).

(** [addTag(tag)] *)
Definition Entity_addTag (this : loc) (tag : string) (w : World)
    : option World :=
  e ← entities w !! this;
  Some (store_entity this
          (mkEntity (ent_id e) (components e) (active e) ({[tag]} ∪ tags e)) w).

(** [createCar(carImage, startPosition, keyBindings)].  The image and the
    key bindings go into the fields of the Sprite and of the CarInput, which
    the store does not hold; a Sprite inherits [cleanup] from Component, a
    CarInput has none. *)
Definition createCar (startPosition : StartPosition) (w : World)
    : option (loc * World) :=
  let '(car, w) := alloc_entity new_Entity w in
  let '(transform, w) :=
    alloc_object
      (mkComponent None
         (BTransform
            (new_Transform (start_x startPosition) (start_y startPosition)
               (start_angle startPosition)))) w in
  w ← Entity_addComponent car "Transform" transform w;
  let '(physics, w) :=
    alloc_object (mkComponent None (BCarPhysics new_CarPhysics)) w in
  w ← Entity_addComponent car "Physics" physics w;
  let '(sprite, w) := alloc_object (mkComponent None (BOther true)) w in
  w ← Entity_addComponent car "Sprite" sprite w;
  let '(input, w) := alloc_object (mkComponent None (BOther false)) w in
  w ← Entity_addComponent car "Input" input w;
  w ← Entity_addTag car "car" w;
  w ← Entity_addTag car "player" w;
  Some (car, w).

(** * Properties *)

(** ** Arithmetic of the model *)

Lemma Math_floor_spec (r : R) (z : Z) :
  IZR z <= r < IZR z + 1 -> Math_floor r = z.
Proof.
  intros [Hlo Hhi]. unfold Math_floor. symmetry.
  apply Int_part_spec. split; lra.
Qed.

Lemma sqrt_3_4 : sqrt (3 * 3 + 4 * 4) = 5.
Proof.
  replace (3 * 3 + 4 * 4) with (5 * 5) by lra.
  apply sqrt_square. lra.
Qed.

(** ** The store *)

Lemma World_eta (w : World) :
  mkWorld (entities w) (objects w) (cleanup_calls w) = w.
Proof. destruct w; reflexivity. Qed.

Lemma store_object_same (l : loc) (c : Component) (w : World) :
  objects w !! l = Some c -> store_object l c w = w.
Proof.
  intros H. unfold store_object. rewrite insert_id by exact H. apply World_eta.
Qed.

Lemma set_body_same (c : Component) : set_body (body c) c = c.
Proof. destruct c; reflexivity. Qed.

Lemma with_physics_same (b : Body) (p : Physics) :
  physics_of b = Some p -> with_physics p b = b.
Proof.
  destruct b as [t|q|cp|k]; simpl; intros H; try discriminate.
  - congruence.
  - injection H as <-. destruct cp; reflexivity.
Qed.

Lemma physics_of_with_physics (b : Body) (p q : Physics) :
  physics_of b = Some p -> physics_of (with_physics q b) = Some q.
Proof. destruct b; simpl; intros H; try discriminate; reflexivity. Qed.

(** ** Physics.applyForce *)

Lemma Physics_applyForce_body_static (fx fy : R) (p : Physics) :
  isStatic p = true -> Physics_applyForce_body fx fy p = p.
Proof. intros H. unfold Physics_applyForce_body. rewrite H. reflexivity. Qed.

Lemma Physics_applyForce_body_dynamic (fx fy : R) (p : Physics) :
  isStatic p = false ->
  Physics_applyForce_body fx fy p =
    set_acceleration (acceleration p + sqrt (fx * fx + fy * fy) / mass p) p.
Proof.
  intros H. unfold Physics_applyForce_body. rewrite H. simpl.
  case_bool_decide as Hm; [reflexivity|].
  assert (H0 : sqrt (fx * fx + fy * fy) = 0).
  { pose proof (sqrt_pos (fx * fx + fy * fy)). lra. }
  rewrite H0. unfold Rdiv. rewrite Rmult_0_l, Rplus_0_r.
  destruct p; reflexivity.
Qed.

(** C6.  [applyForce(fx, fy)] on a Physics component that is not static adds
    [sqrt(fx² + fy²) / mass] to the acceleration accumulator and changes
    nothing else, in the component or in the store, so that two forces of
    equal magnitude have the same effect; on a static one it changes nothing
    at all. *)
Theorem Physics_applyForce_spec (w : World) (this : loc) (c : Component)
    (p : Physics) (fx fy : R) :
  objects w !! this = Some c ->
  physics_of (body c) = Some p ->
  (isStatic p = false ->
     Physics_applyForce this fx fy w =
       Some (store_object this
               (set_body
                  (with_physics
                     (set_acceleration
                        (acceleration p + sqrt (fx * fx + fy * fy) / mass p) p)
                     (body c)) c) w)
     /\ forall gx gy : R,
          sqrt (gx * gx + gy * gy) = sqrt (fx * fx + fy * fy) ->
          Physics_applyForce this gx gy w = Physics_applyForce this fx fy w)
  /\ (isStatic p = true -> Physics_applyForce this fx fy w = Some w).
Proof.
  intros Hc Hp.
  assert (Hrun : forall a b, Physics_applyForce this a b w =
            Some (store_object this
                    (set_body (with_physics (Physics_applyForce_body a b p) (body c)) c) w)).
  { intros a b. unfold Physics_applyForce. rewrite Hc. simpl. rewrite Hp. reflexivity. }
  split.
  - intros Hs. split.
    + rewrite Hrun, Physics_applyForce_body_dynamic by exact Hs. reflexivity.
    + intros gx gy Hg.
      rewrite !Hrun, !Physics_applyForce_body_dynamic by exact Hs.
      rewrite Hg. reflexivity.
  - intros Hs. rewrite Hrun, Physics_applyForce_body_static by exact Hs.
    rewrite with_physics_same by exact Hp.
    rewrite set_body_same. rewrite store_object_same by exact Hc. reflexivity.
Qed.

(** ** Physics.setDirection *)

Lemma Physics_setDirection_run (w : World) (this : loc) (c : Component)
    (p : Physics) (x y : R) :
  objects w !! this = Some c ->
  physics_of (body c) = Some p ->
  Physics_setDirection this x y w =
    Some (store_object this
            (set_body (with_physics (Physics_setDirection_body x y p) (body c)) c) w).
Proof.
  intros Hc Hp. unfold Physics_setDirection. rewrite Hc. simpl. rewrite Hp.
  reflexivity.
Qed.

Lemma Physics_setDirection_body_nonzero (x y : R) (p : Physics) :
  sqrt (x * x + y * y) <> 0 ->
  Physics_setDirection_body x y p =
    set_direction (mkVec2 (x / sqrt (x * x + y * y)) (y / sqrt (x * x + y * y))) p.
Proof.
  intros Hm. unfold Physics_setDirection_body.
  case_bool_decide as Hgt; [reflexivity|].
  pose proof (sqrt_pos (x * x + y * y)). lra.
Qed.

Lemma Physics_setDirection_body_zero (p : Physics) :
  Physics_setDirection_body 0 0 p = p.
Proof.
  unfold Physics_setDirection_body.
  replace (0 * 0 + 0 * 0) with 0 by lra. rewrite sqrt_0.
  case_bool_decide as Hgt; [lra|reflexivity].
Qed.

Lemma Physics_setDirection_body_3_4 (p : Physics) :
  Physics_setDirection_body 3 4 p = set_direction (mkVec2 (6 / 10) (8 / 10)) p.
Proof.
  rewrite Physics_setDirection_body_nonzero by (rewrite sqrt_3_4; lra).
  rewrite sqrt_3_4. f_equal. f_equal; lra.
Qed.

(** C7.  [setDirection(x, y)] with [(x, y)] of non-zero magnitude stores the
    unit vector [(x, y) / |(x, y)|] and changes nothing else;
    [setDirection(3, 4)] stores [(0.6, 0.8)]; [setDirection(0, 0)] leaves
    the component, and so the stored direction, as it was. *)
Theorem Physics_setDirection_spec (w : World) (this : loc) (c : Component)
    (p : Physics) :
  objects w !! this = Some c ->
  physics_of (body c) = Some p ->
  (forall x y : R,
     sqrt (x * x + y * y) <> 0 ->
     Physics_setDirection this x y w =
       Some (store_object this
               (set_body
                  (with_physics
                     (set_direction
                        (mkVec2 (x / sqrt (x * x + y * y))
                                (y / sqrt (x * x + y * y))) p)
                     (body c)) c) w))
  /\ Physics_setDirection this 3 4 w =
       Some (store_object this
               (set_body
                  (with_physics (set_direction (mkVec2 (6 / 10) (8 / 10)) p)
                     (body c)) c) w)
  /\ Physics_setDirection this 0 0 w = Some w.
Proof.
  intros Hc Hp. repeat split.
  - intros x y Hm.
    rewrite (Physics_setDirection_run w this c p) by assumption.
    rewrite Physics_setDirection_body_nonzero by exact Hm. reflexivity.
  - rewrite (Physics_setDirection_run w this c p) by assumption.
    rewrite Physics_setDirection_body_3_4. reflexivity.
  - rewrite (Physics_setDirection_run w this c p) by assumption.
    rewrite Physics_setDirection_body_zero.
    rewrite with_physics_same by exact Hp.
    rewrite set_body_same. rewrite store_object_same by exact Hc. reflexivity.
Qed.

(** ** Physics.update *)

Lemma Physics_update_body_static (owner : option loc) (dt : R) (p : Physics)
    (w : World) :
  isStatic p = true -> Physics_update_body owner dt p w = Some (p, w).
Proof. intros H. unfold Physics_update_body. rewrite H. reflexivity. Qed.

(** C9.  [Physics.update(deltaTime)] on a component with [isStatic = true]
    changes nothing, for every [deltaTime]: the store after the call is the
    store before it, so no field of the component changes and no velocity is
    written into the Transform of the owning entity. *)
Theorem Physics_update_static (w : World) (this : loc) (c : Component)
    (p : Physics) (deltaTime : R) :
  objects w !! this = Some c ->
  physics_of (body c) = Some p ->
  isStatic p = true ->
  Physics_update this deltaTime w = Some w.
Proof.
  intros Hc Hp Hs. unfold Physics_update. rewrite Hc. simpl. rewrite Hp. simpl.
  rewrite Physics_update_body_static by exact Hs. simpl.
  rewrite with_physics_same by exact Hp.
  rewrite set_body_same. rewrite store_object_same by exact Hc. reflexivity.
Qed.

Lemma Physics_update_body_dynamic (owner : option loc) (dt : R) (p : Physics)
    (w : World) :
  isStatic p = false ->
  is_Some (owner_transform owner w) ->
  exists (p' : Physics) (w' : World),
    Physics_update_body owner dt p w = Some (p', w')
    /\ speed p' = Rmin ((speed p + acceleration p * dt) * friction p) (maxSpeed p)
    /\ maxSpeed p' = maxSpeed p
    /\ isStatic p' = false
    /\ acceleration p' = 0.
Proof.
  intros Hs [r Hr]. unfold Physics_update_body. rewrite Hs, Hr. simpl.
  eexists _, _. split; [reflexivity|]. simpl. auto.
Qed.

Lemma physics_at_store (w : World) (this : loc) (c : Component) (p q : Physics) :
  physics_of (body c) = Some p ->
  physics_at (store_object this (set_body (with_physics q (body c)) c) w) this
    = Some q.
Proof.
  intros Hp. unfold physics_at, store_object. simpl.
  rewrite lookup_insert_eq. simpl. eapply physics_of_with_physics, Hp.
Qed.

(** C8.  With friction 0.9, acceleration 0, speed 10 and maxSpeed 100, one
    [Physics.update] of a component that is not static leaves speed 9,
    whatever [deltaTime] is. *)
Theorem Physics_update_friction_flat (w : World) (this : loc) (c : Component)
    (p : Physics) (deltaTime : R) :
  objects w !! this = Some c ->
  physics_of (body c) = Some p ->
  is_Some (owner_transform (entity c) w) ->
  isStatic p = false ->
  friction p = 9 / 10 ->
  acceleration p = 0 ->
  speed p = 10 ->
  maxSpeed p = 100 ->
  exists w' : World,
    Physics_update this deltaTime w = Some w'
    /\ speed <$> physics_at w' this = Some 9.
Proof.
  intros Hc Hp Ho Hs Hf Ha Hv Hm.
  destruct (Physics_update_body_dynamic (entity c) deltaTime p w Hs Ho)
    as (p' & w' & Hrun & Hsp & _).
  eexists. split.
  - unfold Physics_update. rewrite Hc. simpl. rewrite Hp. simpl.
    rewrite Hrun. reflexivity.
  - rewrite (physics_at_store w' this c p p' Hp). simpl. f_equal.
    rewrite Hsp, Hf, Ha, Hv, Hm.
    rewrite Rmin_left; lra.
Qed.

(** ** Sequences of updates and forces *)

Lemma owner_transform_inv (o : option loc) (w : World) (l : loc)
    (c : Component) (t : Transform) :
  owner_transform o w = Some (Some (l, c, t)) ->
  objects w !! l = Some c /\ body c = BTransform t.
Proof.
  unfold owner_transform. destruct o as [e|]; [|discriminate].
  destruct (entities w !! e) as [ent|]; simpl; [|discriminate].
  destruct (Entity_hasComponent ent "Transform"); [|discriminate].
  destruct (Entity_getComponent ent "Transform") as [l0|]; simpl; [|discriminate].
  destruct (objects w !! l0) as [c0|] eqn:Hl0; simpl; [|discriminate].
  destruct (body c0) eqn:Hb; try discriminate.
  intros [= <- <- <-]. auto.
Qed.

(** Overwriting an object by one of the same kind keeps the lookup of the
    owner's Transform well defined. *)
Lemma owner_transform_store (o : option loc) (w : World) (l : loc)
    (c c' : Component) :
  objects w !! l = Some c ->
  (forall t, body c = BTransform t -> exists t', body c' = BTransform t') ->
  is_Some (owner_transform o w) ->
  is_Some (owner_transform o (store_object l c' w)).
Proof.
  intros Hl Hkind. unfold owner_transform. destruct o as [e|]; [|auto].
  simpl. destruct (entities w !! e) as [ent|]; simpl; [|auto].
  destruct (Entity_hasComponent ent "Transform"); [|auto].
  destruct (Entity_getComponent ent "Transform") as [l0|]; simpl; [|auto].
  destruct (decide (l0 = l)) as [->|Hne].
  - rewrite lookup_insert_eq, Hl. simpl.
    destruct (body c) eqn:Hb; intros [r Hr]; try discriminate.
    destruct (Hkind _ eq_refl) as [t' ->]. eauto.
  - rewrite lookup_insert_ne by congruence. auto.
Qed.

Lemma Physics_update_ready (this : loc) (owner : option loc) (M dt : R)
    (w : World) (p : Physics) :
  physics_ready this owner M w p ->
  exists w' p',
    Physics_update this dt w = Some w'
    /\ physics_ready this owner M w' p'
    /\ speed p' <= M.
Proof.
  intros ((c & Hc & Hp & He) & Ho & Hs & Hm).
  unfold Physics_update. rewrite Hc. simpl. rewrite Hp. simpl.
  unfold Physics_update_body. rewrite Hs, He.
  destruct Ho as [r Hr]. rewrite Hr. simpl.
  set (w1 := match r with Some _ => _ | None => w end).
  exists (store_object this
            (set_body
               (with_physics
                  (set_acceleration 0
                     (set_speed
                        (Rmin ((speed p + acceleration p * dt) * friction p)
                           (maxSpeed p)) p)) (body c)) c) w1),
         (set_acceleration 0
            (set_speed
               (Rmin ((speed p + acceleration p * dt) * friction p)
                  (maxSpeed p)) p)).
  split; [reflexivity|].
  assert (H1 : objects w1 !! this = Some c /\ is_Some (owner_transform owner w1)).
  { subst w1. destruct r as [[[l tc] t]|]; [|rewrite Hr; eauto].
    destruct (owner_transform_inv _ _ _ _ _ Hr) as [Hl Hb].
    split.
    - simpl. rewrite lookup_insert_ne; [exact Hc|].
      intros ->. rewrite Hl in Hc. injection Hc as ->.
      rewrite Hb in Hp. discriminate.
    - eapply owner_transform_store; [exact Hl| |rewrite Hr; eauto].
      intros t0 _. simpl. eauto. }
  destruct H1 as [Hc1 Ho1].
  split; [|simpl; rewrite <- Hm; apply Rmin_r].
  split; [|split; [|split]].
  - eexists. split; [simpl; apply lookup_insert_eq|]. simpl.
    split; [eapply physics_of_with_physics, Hp|exact He].
  - eapply owner_transform_store; [exact Hc1| |exact Ho1].
    intros t Ht. rewrite Ht in Hp. discriminate.
  - exact Hs.
  - exact Hm.
Qed.

Lemma Physics_applyForce_ready (this : loc) (owner : option loc) (M fx fy : R)
    (w : World) (p : Physics) :
  physics_ready this owner M w p ->
  exists w' p',
    Physics_applyForce this fx fy w = Some w'
    /\ physics_ready this owner M w' p'
    /\ speed p' = speed p.
Proof.
  intros ((c & Hc & Hp & He) & Ho & Hs & Hm).
  unfold Physics_applyForce. rewrite Hc. simpl. rewrite Hp. simpl.
  rewrite Physics_applyForce_body_dynamic by exact Hs.
  eexists _,
    (set_acceleration (acceleration p + sqrt (fx * fx + fy * fy) / mass p) p).
  split; [reflexivity|].
  split; [|reflexivity].
  split; [|split; [|split]].
  - eexists. split; [simpl; apply lookup_insert_eq|]. simpl.
    split; [eapply physics_of_with_physics, Hp|exact He].
  - eapply owner_transform_store; [exact Hc| |exact Ho].
    intros t Ht. rewrite Ht in Hp. discriminate.
  - exact Hs.
  - exact Hm.
Qed.

(** Once the speed is within the bound, every further call keeps it so. *)
Lemma run_calls_bounded (this : loc) (owner : option loc) (M : R)
    (ks : list physics_call) :
  forall (w : World) (p : Physics),
    physics_ready this owner M w p ->
    speed p <= M ->
    exists w' p',
      run_calls this ks w = Some w'
      /\ physics_ready this owner M w' p'
      /\ speed p' <= M.
Proof.
  induction ks as [|k ks IH]; intros w p Hr Hb.
  - exists w, p. auto.
  - destruct k as [dt|fx fy]; simpl.
    + destruct (Physics_update_ready this owner M dt w p Hr)
        as (w1 & p1 & Hrun & Hr1 & Hb1).
      rewrite Hrun. simpl. eauto.
    + destruct (Physics_applyForce_ready this owner M fx fy w p Hr)
        as (w1 & p1 & Hrun & Hr1 & Hb1).
      rewrite Hrun. simpl. apply (IH w1 p1 Hr1). lra.
Qed.

(** Any calls, whatever the speed is, keep the component ready. *)
Lemma run_calls_ready (this : loc) (owner : option loc) (M : R)
    (ks : list physics_call) :
  forall (w : World) (p : Physics),
    physics_ready this owner M w p ->
    exists w' p',
      run_calls this ks w = Some w' /\ physics_ready this owner M w' p'.
Proof.
  induction ks as [|k ks IH]; intros w p Hr.
  - exists w, p. auto.
  - destruct k as [dt|fx fy]; simpl.
    + destruct (Physics_update_ready this owner M dt w p Hr)
        as (w1 & p1 & Hrun & Hr1 & _).
      rewrite Hrun. simpl. eauto.
    + destruct (Physics_applyForce_ready this owner M fx fy w p Hr)
        as (w1 & p1 & Hrun & Hr1 & _).
      rewrite Hrun. simpl. eauto.
Qed.

Lemma run_calls_app (this : loc) (ks1 ks2 : list physics_call) (w : World) :
  run_calls this (ks1 ++ ks2) w = w' ← run_calls this ks1 w; run_calls this ks2 w'.
Proof.
  revert w. induction ks1 as [|k ks1 IH]; intros w; simpl; [reflexivity|].
  destruct (run_call this k w) as [w1|]; simpl; [apply IH|reflexivity].
Qed.

(** C5.  On a Physics component that is not static and has friction at most
    1, take any sequence of [update] and [applyForce] calls: at every point
    of it that comes after an [update], the calls so far have completed and
    the speed is at most [maxSpeed]. *)
Theorem Physics_speed_bounded (w : World) (this : loc) (c : Component)
    (p : Physics) (before after : list physics_call) (deltaTime : R) :
  objects w !! this = Some c ->
  physics_of (body c) = Some p ->
  is_Some (owner_transform (entity c) w) ->
  isStatic p = false ->
  friction p <= 1 ->
  exists (w' : World) (p' : Physics),
    run_calls this (before ++ CallUpdate deltaTime :: after) w = Some w'
    /\ physics_at w' this = Some p'
    /\ maxSpeed p' = maxSpeed p
    /\ speed p' <= maxSpeed p'.
Proof.
  intros Hc Hp Ho Hs _.
  assert (Hr : physics_ready this (entity c) (maxSpeed p) w p).
  { split; [eauto|]. auto. }
  destruct (run_calls_ready this _ _ before w p Hr) as (w1 & p1 & Hrun1 & Hr1).
  destruct (Physics_update_ready this _ _ deltaTime w1 p1 Hr1)
    as (w2 & p2 & Hrun2 & Hr2 & Hb2).
  destruct (run_calls_bounded this _ _ after w2 p2 Hr2 Hb2)
    as (w3 & p3 & Hrun3 & Hr3 & Hb3).
  exists w3, p3. split.
  - rewrite run_calls_app, Hrun1. simpl. rewrite Hrun2. simpl. exact Hrun3.
  - destruct Hr3 as ((c3 & Hc3 & Hp3 & _) & _ & _ & Hm3).
    unfold physics_at. rewrite Hc3. simpl. rewrite Hm3. auto.
Qed.

(** ** Entity.addComponent *)


(** [removeComponent] is where the hook of a component is called: removing
    the Physics of entity 1 records one call, on object 3. *)
Example Entity_removeComponent_cleanup :
  cleanup_calls <$> Entity_removeComponent 1%positive "Physics" sample_world
    = Some [3%positive].
Proof. reflexivity. Qed.



(** ** CarPhysics.update *)

Lemma Vec2_eta (v : Vec2) : mkVec2 (vec_x v) (vec_y v) = v.
Proof. destruct v; reflexivity. Qed.

(** An entity that holds a Transform: the lookup finds it. *)
Lemma owner_transform_found (w : World) (e : loc) (ent : Entity) (l : loc)
    (tc : Component) (t : Transform) :
  entities w !! e = Some ent ->
  components ent !! "Transform" = Some l ->
  objects w !! l = Some tc ->
  body tc = BTransform t ->
  owner_transform (Some e) w = Some (Some (l, tc, t)).
Proof.
  intros Hent Hk Hl Ht. unfold owner_transform. rewrite Hent. simpl.
  unfold Entity_hasComponent, Entity_getComponent. rewrite Hk.
  rewrite bool_decide_eq_true_2 by eauto. simpl.
  rewrite Hl. simpl. rewrite Ht. reflexivity.
Qed.

(** Writing new fields into the Transform found: the lookup finds them. *)
Lemma owner_transform_written (o : option loc) (w : World) (l : loc)
    (tc : Component) (t t' : Transform) :
  owner_transform o w = Some (Some (l, tc, t)) ->
  owner_transform o (store_object l (set_body (BTransform t') tc) w)
    = Some (Some (l, set_body (BTransform t') tc, t')).
Proof.
  unfold owner_transform. destruct o as [e|]; [|discriminate]. simpl.
  destruct (entities w !! e) as [ent|]; simpl; [|discriminate].
  destruct (Entity_hasComponent ent "Transform"); [|discriminate].
  destruct (Entity_getComponent ent "Transform") as [l0|]; simpl; [|discriminate].
  destruct (objects w !! l0) as [c0|] eqn:Hl0; simpl; [|discriminate].
  destruct (body c0) eqn:Hb; try discriminate.
  intros [= -> <- <-]. rewrite lookup_insert_eq. reflexivity.
Qed.

(** [Physics.update] on an owner with a Transform: it completes, writes only
    the velocity of that Transform, and leaves its position. *)
Lemma Physics_update_body_found (o : option loc) (dt : R) (p : Physics)
    (w : World) (l : loc) (tc : Component) (t : Transform) :
  owner_transform o w = Some (Some (l, tc, t)) ->
  exists (p1 : Physics) (w1 : World) (t1 : Transform),
    Physics_update_body o dt p w = Some (p1, w1)
    /\ owner_transform o w1 = Some (Some (l, set_body (BTransform t1) tc, t1))
    /\ position t1 = position t
    /\ w1 = store_object l (set_body (BTransform t1) tc) w.
Proof.
  intros Ho. destruct (owner_transform_inv _ _ _ _ _ Ho) as [Hl Hb].
  unfold Physics_update_body. destruct (isStatic p).
  - exists p, w, t. split; [reflexivity|].
    assert (Heq : set_body (BTransform t) tc = tc).
    { rewrite <- Hb. apply set_body_same. }
    rewrite Heq. rewrite (store_object_same l tc w Hl). auto.
  - rewrite Ho. simpl. eexists _, _, _. split; [reflexivity|].
    split; [eapply owner_transform_written, Ho|]. split; reflexivity.
Qed.

Lemma Physics_update_body_total (o : option loc) (dt : R) (p : Physics)
    (w : World) :
  is_Some (owner_transform o w) ->
  is_Some (Physics_update_body o dt p w).
Proof.
  intros [r Hr]. unfold Physics_update_body.
  destruct (isStatic p); [eauto|]. rewrite Hr. simpl. eauto.
Qed.

(** The statements before the collision test: they complete, the base update
    runs on the inherited fields as the tick found them, the clock advances
    by the tick, a latch that is set stays set, and the previous position
    stored is the position the tick found. *)
Lemma CarPhysics_update_before_check_ok (o : option loc) (dt : R)
    (cp : CarPhysics) (w : World) :
  is_Some (owner_transform o w) ->
  exists (p1 : Physics) (w1 : World) (cp1 : CarPhysics),
    Physics_update_body o dt (base cp) w = Some (p1, w1)
    /\ CarPhysics_update_before_check o dt cp w = Some (cp1, w1)
    /\ base cp1 = p1
    /\ startupTime cp1 = startupTime cp + dt * 1000
    /\ startupGracePeriod cp1 = startupGracePeriod cp
    /\ (hasMovedFromStart cp = true -> hasMovedFromStart cp1 = true)
    /\ (forall l tc t, owner_transform o w = Some (Some (l, tc, t)) ->
          previousPosition cp1 = Some (position t)).
Proof.
  intros Ho.
  destruct (Physics_update_body_total o dt (base cp) w Ho) as [[p1 w1] Hrun].
  destruct Ho as [r Hr].
  unfold CarPhysics_update_before_check. rewrite Hr. simpl.
  set (cp2 := match r with Some _ => _ | None => cp end).
  assert (H2 : base cp2 = base cp
               /\ startupTime cp2 = startupTime cp
               /\ startupGracePeriod cp2 = startupGracePeriod cp
               /\ (hasMovedFromStart cp = true -> hasMovedFromStart cp2 = true)
               /\ (forall l tc t, r = Some (l, tc, t) ->
                     previousPosition cp2 = Some (position t))).
  { subst cp2. destruct r as [[[l tc] t]|].
    - destruct (startPosition cp); simpl; case_bool_decide; simpl;
        (repeat split; auto);
        intros l' tc' t' [= <- <- <-]; rewrite Vec2_eta; reflexivity.
    - repeat split; auto. intros l tc t [=]. }
  destruct H2 as (Hb & Hclock & Hgrace & Hlatch & Hprev).
  simpl. rewrite Hb, Hrun. simpl.
  exists p1, w1, (set_base p1 (set_startupTime (startupTime cp2 + dt * 1000) cp2)).
  split; [reflexivity|]. split; [reflexivity|]. simpl.
  split; [reflexivity|]. split; [rewrite Hclock; reflexivity|].
  split; [exact Hgrace|]. split; [exact Hlatch|].
  intros l tc t [= ->]. eapply Hprev. reflexivity.
Qed.

Lemma Transform_setPosition_same (t : Transform) (v : Vec2) :
  position t = v -> Transform_setPosition (vec_x v) (vec_y v) t = t.
Proof.
  intros <-. unfold Transform_setPosition. rewrite Vec2_eta.
  destruct t; reflexivity.
Qed.

(** [CarPhysics.update] on an owner with a Transform, on the fields of
    [this]: the result is the state the statements before the test produce,
    with the speed multiplied by the bounce coefficient when the test is
    reached on an obstacle cell.  The position written back on a collision
    is the one the Transform already has. *)
Lemma CarPhysics_update_body_found (o : option loc) (dt : R) (cp : CarPhysics)
    (w : World) (l : loc) (tc : Component) (t : Transform) :
  owner_transform o w = Some (Some (l, tc, t)) ->
  exists (p1 : Physics) (w1 : World) (cp1 : CarPhysics) (t1 : Transform),
    Physics_update_body o dt (base cp) w = Some (p1, w1)
    /\ CarPhysics_update_before_check o dt cp w = Some (cp1, w1)
    /\ base cp1 = p1
    /\ startupTime cp1 = startupTime cp + dt * 1000
    /\ startupGracePeriod cp1 = startupGracePeriod cp
    /\ (hasMovedFromStart cp = true -> hasMovedFromStart cp1 = true)
    /\ previousPosition cp1 = Some (position t)
    /\ w1 = store_object l (set_body (BTransform t1) tc) w
    /\ position t1 = position t
    /\ CarPhysics_update_body o dt cp w =
         Some (if bool_decide (startupTime cp1 > startupGracePeriod cp1)
                  && hasMovedFromStart cp1 && on_obstacle (position t)
               then set_base
                      (set_speed (speed p1 * GameConfig.COLLISION_BOUNCE) p1) cp1
               else cp1, w1).
Proof.
  intros Ho.
  destruct (CarPhysics_update_before_check_ok o dt cp w (ltac:(eauto)))
    as (p1 & w1 & cp1 & Hrun & Hbc & Hb & Hclock & Hgrace & Hlatch & Hprev).
  destruct (Physics_update_body_found o dt (base cp) w l tc t Ho)
    as (p1' & w1' & t1 & Hrun' & Ho1 & Hpos & Hw1).
  rewrite Hrun in Hrun'. injection Hrun' as <- <-.
  specialize (Hprev l tc t Ho).
  exists p1, w1, cp1, t1. repeat (split; [assumption|]).
  unfold CarPhysics_update_body. rewrite Hbc. simpl.
  destruct (bool_decide (startupTime cp1 > startupGracePeriod cp1)
            && hasMovedFromStart cp1); simpl; [|reflexivity].
  unfold CarPhysics_checkTrackCollision_body. rewrite Ho1. simpl.
  rewrite Hpos.
  change (GameConfig.isObstacle
            (Math_floor (vec_x (position t) / GameConfig.TILE_WIDTH))
            (Math_floor (vec_y (position t) / GameConfig.TILE_HEIGHT)))
    with (on_obstacle (position t)).
  destruct (on_obstacle (position t)); [|reflexivity].
  rewrite Hprev, Hb.
  rewrite Transform_setPosition_same by exact Hpos.
  rewrite store_object_same; [reflexivity|].
  rewrite Hw1. simpl. apply lookup_insert_eq.
Qed.

Lemma CarPhysics_update_run (w : World) (this : loc) (c : Component)
    (cp cp' : CarPhysics) (dt : R) (w2 : World) :
  objects w !! this = Some c ->
  body c = BCarPhysics cp ->
  CarPhysics_update_body (entity c) dt cp w = Some (cp', w2) ->
  CarPhysics_update this dt w
    = Some (store_object this (set_body (BCarPhysics cp') c) w2)
  /\ car_at (store_object this (set_body (BCarPhysics cp') c) w2) this = Some cp'.
Proof.
  intros Hc Hb Hrun. unfold CarPhysics_update. rewrite Hc. simpl.
  rewrite Hb, Hrun. simpl. split; [reflexivity|].
  unfold car_at. simpl. rewrite lookup_insert_eq. reflexivity.
Qed.


(** The base update leaves the store as it is or writes the Transform of
    the owner, keeping its position. *)
Lemma Physics_update_body_world (o : option loc) (dt : R) (p p1 : Physics)
    (w w1 : World) :
  Physics_update_body o dt p w = Some (p1, w1) ->
  w1 = w
  \/ (exists l tc t t1,
        owner_transform o w = Some (Some (l, tc, t))
        /\ w1 = store_object l (set_body (BTransform t1) tc) w
        /\ position t1 = position t).
Proof.
  intros Hrun. destruct (owner_transform o w) as [[[[l tc] t]|]|] eqn:Ho.
  - right. destruct (Physics_update_body_found o dt p w l tc t Ho)
      as (p1' & w1' & t1 & Hrun' & _ & Hpos & Hw1).
    rewrite Hrun in Hrun'. injection Hrun' as <- <-. eauto 10.
  - left. unfold Physics_update_body in Hrun.
    destruct (isStatic p); [congruence|]. rewrite Ho in Hrun. simpl in Hrun.
    congruence.
  - left. unfold Physics_update_body in Hrun.
    destruct (isStatic p); [congruence|]. rewrite Ho in Hrun. discriminate.
Qed.

Lemma Physics_update_body_positions (o : option loc) (dt : R)
    (p p1 : Physics) (w w1 : World) (l : loc) (t : Transform) :
  Physics_update_body o dt p w = Some (p1, w1) ->
  transform_at w l = Some t ->
  exists t1, transform_at w1 l = Some t1 /\ position t1 = position t.
Proof.
  intros Hrun Ht.
  destruct (Physics_update_body_world o dt p p1 w w1 Hrun)
    as [->|(l0 & tc & t0 & t1 & Ho & -> & Hpos)]; [eauto|].
  destruct (owner_transform_inv _ _ _ _ _ Ho) as [Hl0 Hb0].
  unfold transform_at in *. simpl.
  destruct (decide (l = l0)) as [->|Hne].
  - rewrite lookup_insert_eq. simpl. exists t1. split; [reflexivity|].
    rewrite Hl0 in Ht. simpl in Ht. rewrite Hb0 in Ht. congruence.
  - rewrite lookup_insert_ne by congruence. eauto.
Qed.

(** [CarPhysics.update] on the fields of [this], whatever the owner: it
    completes, the store it leaves is the one of the base update, and the
    fields are those the statements before the test produce unless the test
    is reached. *)
Lemma CarPhysics_update_body_ok (o : option loc) (dt : R) (cp : CarPhysics)
    (w : World) :
  is_Some (owner_transform o w) ->
  exists (p1 : Physics) (w1 : World) (cp1 cp' : CarPhysics),
    Physics_update_body o dt (base cp) w = Some (p1, w1)
    /\ CarPhysics_update_before_check o dt cp w = Some (cp1, w1)
    /\ base cp1 = p1
    /\ startupTime cp1 = startupTime cp + dt * 1000
    /\ startupGracePeriod cp1 = startupGracePeriod cp
    /\ CarPhysics_update_body o dt cp w = Some (cp', w1)
    /\ startupTime cp' = startupTime cp1
    /\ hasMovedFromStart cp' = hasMovedFromStart cp1
    /\ (bool_decide (startupTime cp1 > startupGracePeriod cp1)
          && hasMovedFromStart cp1 = false -> cp' = cp1).
Proof.
  intros Ho. destruct (owner_transform o w) as [[[[l tc] t]|]|] eqn:Hr.
  - destruct (CarPhysics_update_body_found o dt cp w l tc t Hr)
      as (p1 & w1 & cp1 & t1 & Hrun & Hbc & Hb1 & Hclock & Hgrace & _
          & _ & _ & _ & Hupd).
    eexists p1, w1, cp1, _. repeat (split; [eassumption|]).
    destruct (bool_decide (startupTime cp1 > startupGracePeriod cp1)
              && hasMovedFromStart cp1); simpl.
    + destruct (on_obstacle (position t));
        (split; [reflexivity|]); (split; [reflexivity|]); discriminate.
    + auto.
  - rewrite <- Hr in Ho.
    destruct (CarPhysics_update_before_check_ok o dt cp w Ho)
      as (p1 & w1 & cp1 & Hrun & Hbc & Hb1 & Hclock & Hgrace & _ & _).
    assert (Hw1 : w1 = w).
    { destruct (Physics_update_body_world o dt _ p1 w w1 Hrun)
        as [->|(l0 & tc & t0 & t1 & Ho' & _)]; congruence. }
    exists p1, w1, cp1, cp1. repeat (split; [assumption|]).
    split; [|auto].
    unfold CarPhysics_update_body. rewrite Hbc. simpl.
    destruct (_ && _); [|reflexivity].
    unfold CarPhysics_checkTrackCollision_body. rewrite Hw1, Hr. reflexivity.
  - destruct Ho as [? [=]].
Qed.

(** C4.  A car entity, one tick of [CarPhysics.update].  The tick completes
    and advances the startup clock by the tick; no Transform position is
    changed by it.  If the clock is then below 2000 ms, or the latch is not
    set, the inherited fields, the speed among them, are those the base
    update produced, and every other object is as the base update left it:
    no position is snapped back and the speed is not multiplied by the
    bounce coefficient, whatever cell the position is in. *)
Theorem CarPhysics_update_grace (w : World) (this : loc) (c : Component)
    (cp : CarPhysics) (deltaTime : R) :
  objects w !! this = Some c ->
  body c = BCarPhysics cp ->
  is_Some (owner_transform (entity c) w) ->
  startupGracePeriod cp = 2000 ->
  exists (p1 : Physics) (w1 w' : World) (cp' : CarPhysics),
    Physics_update_body (entity c) deltaTime (base cp) w = Some (p1, w1)
    /\ CarPhysics_update this deltaTime w = Some w'
    /\ car_at w' this = Some cp'
    /\ startupTime cp' = startupTime cp + deltaTime * 1000
    /\ (forall l t, transform_at w l = Some t ->
          exists t', transform_at w' l = Some t' /\ position t' = position t)
    /\ (startupTime cp' < 2000 \/ hasMovedFromStart cp' = false ->
        base cp' = p1
        /\ entities w' = entities w1
        /\ forall l, l <> this -> objects w' !! l = objects w1 !! l).
Proof.
  intros Hc Hb Ho Hgrace0.
  destruct (CarPhysics_update_body_ok (entity c) deltaTime cp w Ho)
    as (p1 & w1 & cp1 & cp' & Hrun & _ & Hb1 & Hclock & Hgrace & Hupd
        & Hs1 & Hs2 & Hskip).
  destruct (CarPhysics_update_run w this c cp cp' deltaTime w1 Hc Hb Hupd)
    as [Hw' Hcar].
  exists p1, w1, (store_object this (set_body (BCarPhysics cp') c) w1), cp'.
  split; [exact Hrun|]. split; [exact Hw'|]. split; [exact Hcar|].
  split; [congruence|]. split.
  - intros l t Ht.
    destruct (Physics_update_body_positions _ _ _ _ _ _ l t Hrun Ht)
      as (t1 & Ht1 & Hpos).
    exists t1. split; [|exact Hpos].
    unfold transform_at in *. simpl. rewrite lookup_insert_ne; [exact Ht1|].
    intros ->. rewrite Hc in Ht. simpl in Ht. rewrite Hb in Ht. discriminate.
  - intros Hcond. rewrite Hskip.
    + split; [exact Hb1|]. split; [reflexivity|].
      intros l Hne. simpl. apply lookup_insert_ne. congruence.
    + rewrite Hs1, Hs2 in Hcond. rewrite Hgrace, Hgrace0.
      destruct Hcond as [Hlt| ->]; [|apply andb_false_r].
      rewrite bool_decide_eq_false_2 by lra. reflexivity.
Qed.

(** ** The frame limiter *)

Module GameFacts.

Import Game.
Local Open Scope Q_scope.

Lemma calls_of_emitted (g : Game) (t : Q) (es : list event) :
  trace (gameLoop t g) = trace g ++ es -> calls_of t g = es.
Proof.
  intros H. unfold calls_of. rewrite H. apply drop_app_length.
Qed.

Lemma gameLoop_skip (g : Game) (t : Q) :
  isRunning g = true ->
  t - lastFrameTime g < frameInterval g ->
  gameLoop t g = emit RequestAnimationFrame g.
Proof.
  intros Hrun Hlt. unfold gameLoop. rewrite Hrun. simpl.
  destruct (Qle_bool (frameInterval g) (t - lastFrameTime g)) eqn:Hle;
    [|reflexivity].
  apply Qle_bool_iff in Hle. apply Qlt_not_le in Hlt. contradiction.
Qed.

Lemma gameLoop_frame (g : Game) (t : Q) :
  isRunning g = true ->
  frameInterval g <= t - lastFrameTime g ->
  gameLoop t g =
    emit RequestAnimationFrame
      (set_lastFrameTime
         (t - js_rem (t - lastFrameTime g) (frameInterval g))
         (render (update ((t - lastFrameTime g) / 1000) g))).
Proof.
  intros Hrun Hle. unfold gameLoop. rewrite Hrun. simpl.
  apply Qle_bool_iff in Hle. rewrite Hle. reflexivity.
Qed.

Lemma gameLoop_stopped (g : Game) (t : Q) :
  isRunning g = false -> gameLoop t g = g.
Proof. intros H. unfold gameLoop. rewrite H. reflexivity. Qed.

Lemma gameLoop_keeps (g : Game) (t : Q) :
  isRunning (gameLoop t g) = isRunning g
  /\ frameInterval (gameLoop t g) = frameInterval g.
Proof.
  unfold gameLoop. destruct (isRunning g) eqn:Hrun; simpl; [|auto].
  destruct (Qle_bool _ _); simpl; auto.
Qed.

(** The integer part of a non-negative quotient is below it. *)
Lemma Qtrunc_le (q : Q) :
  0 <= q -> inject_Z (Z.quot (Qnum q) (Zpos (Qden q))) <= q.
Proof.
  intros Hq. destruct q as [n d]. simpl.
  assert (Hn : (0 <= n)%Z).
  { unfold Qle in Hq. simpl in Hq. lia. }
  rewrite Z.quot_div_nonneg by lia.
  apply (Qfloor_le (n # d)).
Qed.

Lemma js_rem_nonneg (a b : Q) : 0 < b -> 0 <= a -> 0 <= js_rem a b.
Proof.
  intros Hb Ha. unfold js_rem.
  assert (Hq : 0 <= a / b).
  { apply Qle_shift_div_l; [exact Hb|]. rewrite Qmult_0_l. exact Ha. }
  pose proof (Qtrunc_le (a / b) Hq) as Ht.
  set (k := inject_Z (Z.quot (Qnum (a / b)) (Zpos (Qden (a / b))))) in *.
  assert (H : b * k <= a).
  { apply Qle_trans with (b * (a / b)); [apply Qmult_le_l; assumption|].
    rewrite Qmult_div_r; [apply Qle_refl|].
    intros E. rewrite E in Hb. discriminate. }
  apply (Qplus_le_l _ _ (b * k)). ring_simplify. exact H.
Qed.

(** Timestamps that do not run backwards: [lastFrameTime] stays at or
    before the latest callback. *)
Lemma gameLoop_lastFrameTime_le (g : Game) (t : Q) :
  0 < frameInterval g ->
  lastFrameTime g <= t ->
  lastFrameTime (gameLoop t g) <= t.
Proof.
  intros Hpos Hle. unfold gameLoop.
  destruct (isRunning g); simpl; [|exact Hle].
  destruct (Qle_bool (frameInterval g) (t - lastFrameTime g)) eqn:Hf;
    simpl; [|exact Hle].
  apply Qle_bool_iff in Hf.
  assert (Hrem : 0 <= js_rem (t - lastFrameTime g) (frameInterval g)).
  { apply js_rem_nonneg; [exact Hpos|].
    apply Qle_trans with (frameInterval g); [apply Qlt_le_weak, Hpos|exact Hf]. }
  set (r := js_rem _ _) in *.
  apply Qle_trans with (t - 0); [|unfold Qminus; rewrite Qplus_0_r; apply Qle_refl].
  apply Qplus_le_r. apply Qopp_le_compat. exact Hrem.
Qed.

End GameFacts.

(** Callbacks every 17 ms, then one at 50 ms: each one is a frame, the last
    one because the remainders carried over add up. *)
Example callbacks_at_60Hz :
  let g := Game.callbacks [17; 34; 50]%Q (Game.start 0 Game.new_Game) in
  Game.updates (Game.trace g) = 3%nat /\ Game.renders (Game.trace g) = 3%nat.
Proof. vm_compute. split; reflexivity. Qed.

(** After [stop()] a callback does nothing. *)
Example callback_after_stop :
  let g := Game.stop (Game.start 0 Game.new_Game) in
  Game.gameLoop 100 g = g.
Proof. reflexivity. Qed.

(** C2 as stated fails on callbacks that come faster than the frame
    interval: a game started at time 0 and called back at 10 ms and at 20 ms skips the
    first callback and processes the second, which is only 10 ms after the
    first. *)
Lemma gameLoop_callback_spacing_counterexample :
  let g1 := Game.gameLoop 10 (Game.start 0 Game.new_Game) in
  Game.isRunning g1 = true
  /\ Game.frameInterval g1 = (1000 / 60)%Q
  /\ (20 - 10 < 1000 / 60)%Q
  /\ Game.updates (Game.calls_of 10 (Game.start 0 Game.new_Game)) = 0%nat
  /\ Game.updates (Game.calls_of 20 g1) = 1%nat
  /\ Game.renders (Game.calls_of 20 g1) = 1%nat.
Proof. vm_compute. repeat split. Qed.

(** C2 (amended).  While the game is running, a callback whose timestamp is
    less than the frame interval (1000/60 ms) after [lastFrameTime], the time
    of the last processed frame less the remainder carried over, makes no
    update and no render call and requests the next callback; one at or
    above the interval after [lastFrameTime] makes exactly one update call,
    with the elapsed time in seconds, followed by one render call.  So a
    callback at or above the interval after the previous callback makes
    exactly one update call followed by one render call, when timestamps do
    not run backwards. *)
Theorem gameLoop_frame_limiter (g : Game.Game) (currentTime : Q) :
  Game.isRunning g = true ->
  (Game.frameInterval g == 1000 / 60)%Q ->
  ((currentTime - Game.lastFrameTime g < 1000 / 60)%Q ->
     Game.calls_of currentTime g = [Game.RequestAnimationFrame])
  /\ ((1000 / 60 <= currentTime - Game.lastFrameTime g)%Q ->
        Game.calls_of currentTime g =
          [Game.Update ((currentTime - Game.lastFrameTime g) / 1000)%Q;
           Game.Render; Game.RequestAnimationFrame])
  /\ (forall previousTime : Q,
        (Game.lastFrameTime g <= previousTime)%Q ->
        (1000 / 60 <= currentTime - previousTime)%Q ->
        let g1 := Game.gameLoop previousTime g in
        Game.calls_of currentTime g1 =
          [Game.Update ((currentTime - Game.lastFrameTime g1) / 1000)%Q;
           Game.Render; Game.RequestAnimationFrame]).
Proof.
  intros Hrun Hint.
  assert (Hframe : forall g0, Game.isRunning g0 = true ->
            (Game.frameInterval g0 == 1000 / 60)%Q ->
            (1000 / 60 <= currentTime - Game.lastFrameTime g0)%Q ->
            Game.calls_of currentTime g0 =
              [Game.Update ((currentTime - Game.lastFrameTime g0) / 1000)%Q;
               Game.Render; Game.RequestAnimationFrame]).
  { intros g0 Hrun0 Hint0 H. apply GameFacts.calls_of_emitted.
    rewrite GameFacts.gameLoop_frame; [|exact Hrun0|rewrite Hint0; exact H].
    simpl. rewrite <- !app_assoc. reflexivity. }
  split; [|split].
  - intros H. apply GameFacts.calls_of_emitted.
    rewrite GameFacts.gameLoop_skip; [reflexivity|exact Hrun|].
    rewrite Hint. exact H.
  - apply Hframe; assumption.
  - intros previousTime Hprev Hspaced g1.
    destruct (GameFacts.gameLoop_keeps g previousTime) as [Hrun1 Hint1].
    apply Hframe.
    + subst g1. rewrite Hrun1. exact Hrun.
    + subst g1. rewrite Hint1. exact Hint.
    + assert (Hle : (Game.lastFrameTime g1 <= previousTime)%Q).
      { apply GameFacts.gameLoop_lastFrameTime_le; [|exact Hprev].
        rewrite Hint. reflexivity. }
      apply Qle_trans with (currentTime - previousTime)%Q; [exact Hspaced|].
      apply Qplus_le_r. apply Qopp_le_compat. exact Hle.
Qed.

(** ** The track grid *)

(** C10.  For all integers [col] and [row], converting the grid cell to world
    coordinates and back gives the cell again:
    [worldToGrid(gridToWorld(col, row)) = (col, row)]. *)
Theorem worldToGrid_gridToWorld (col row : Z) :
  let '(x, y) := GameConfig.gridToWorld (IZR col) (IZR row) in
  GameConfig.worldToGrid x y = (col, row).
Proof.
  unfold GameConfig.gridToWorld, GameConfig.worldToGrid,
    GameConfig.TILE_WIDTH, GameConfig.TILE_HEIGHT.
  f_equal; apply Math_floor_spec; lra.
Qed.

(** The track on a few cells: outside the grid is wall, and a start tile is
    not road. *)
Example getTrackTileAt_outside :
  GameConfig.getTrackTileAt (-1) 3 = Some GameConfig.WALL
  /\ GameConfig.getTrackTileAt 20 3 = Some GameConfig.WALL
  /\ GameConfig.getTrackTileAt 3 15 = Some GameConfig.WALL.
Proof. repeat split. Qed.

Example getTrackTileAt_inside :
  GameConfig.getTrackTileAt 1 1 = Some GameConfig.ROAD
  /\ GameConfig.getTrackTileAt 16 2 = Some GameConfig.PLAYER_START
  /\ GameConfig.getTrackTileAt 9 5 = Some GameConfig.FLAG.
Proof. repeat split. Qed.

Example isObstacle_cells :
  GameConfig.isObstacle 1 1 = false
  /\ GameConfig.isObstacle 0 0 = true
  /\ GameConfig.isObstacle 16 2 = true.
Proof. repeat split. Qed.


(** ** The theorems on the sample stores *)

Lemma sample_owner_found :
  is_Some (owner_transform (Some 1%positive) sample_world).
Proof. eexists. reflexivity. Qed.

Lemma gameLoop_frame_limiter_witness :
  Game.calls_of 20 (Game.start 0 Game.new_Game) =
    [Game.Update
       ((20 - Game.lastFrameTime (Game.start 0 Game.new_Game)) / 1000)%Q;
     Game.Render; Game.RequestAnimationFrame].
Proof.
  destruct (gameLoop_frame_limiter (Game.start 0 Game.new_Game) 20 eq_refl
              (Qeq_refl _)) as (_ & Hframe & _).
  apply Hframe. vm_compute. discriminate.
Defined.


Lemma CarPhysics_update_grace_witness :
  exists (p1 : Physics) (w1 w' : World) (cp' : CarPhysics),
    Physics_update_body (Some 1%positive) (1 / 60) (base new_CarPhysics)
      (car_world new_CarPhysics) = Some (p1, w1)
    /\ CarPhysics_update 3%positive (1 / 60) (car_world new_CarPhysics) = Some w'
    /\ car_at w' 3%positive = Some cp'
    /\ base cp' = p1
    /\ objects w' !! 2%positive = objects w1 !! 2%positive.
Proof.
  destruct (CarPhysics_update_grace (car_world new_CarPhysics) 3%positive
              (mkComponent (Some 1%positive) (BCarPhysics new_CarPhysics))
              new_CarPhysics (1 / 60) eq_refl eq_refl
              (ex_intro _ _ eq_refl) eq_refl)
    as (p1 & w1 & w' & cp' & Hrun & Hupd & Hcar & Hclock & _ & Hgrace).
  exists p1, w1, w', cp'. repeat (split; [assumption|]).
  assert (Hlt : startupTime cp' < 2000 \/ hasMovedFromStart cp' = false).
  { left. rewrite Hclock. simpl. lra. }
  destruct (Hgrace Hlt) as (Hb & _ & Hothers).
  split; [exact Hb|]. apply Hothers. discriminate.
Defined.

Lemma Physics_speed_bounded_witness :
  exists (w' : World) (p' : Physics),
    run_calls 3%positive
      ([CallApplyForce 3 4; CallUpdate (1 / 60)]
         ++ CallUpdate (1 / 60) :: [CallApplyForce 100 0]) sample_world = Some w'
    /\ physics_at w' 3%positive = Some p'
    /\ maxSpeed p' = maxSpeed sample_physics
    /\ speed p' <= maxSpeed p'.
Proof.
  apply (Physics_speed_bounded sample_world 3%positive
           (mkComponent (Some 1%positive) (BPhysics sample_physics))
           sample_physics [CallApplyForce 3 4; CallUpdate (1 / 60)]
           [CallApplyForce 100 0] (1 / 60) eq_refl eq_refl sample_owner_found
           eq_refl).
  simpl. lra.
Defined.

Lemma Physics_applyForce_spec_witness :
  Physics_applyForce 3%positive 3 4 sample_world =
    Some (store_object 3%positive
            (mkComponent (Some 1%positive)
               (BPhysics
                  (set_acceleration
                     (acceleration sample_physics
                      + sqrt (3 * 3 + 4 * 4) / mass sample_physics)
                     sample_physics))) sample_world).
Proof.
  exact (proj1 (proj1 (Physics_applyForce_spec sample_world 3%positive
                         (mkComponent (Some 1%positive) (BPhysics sample_physics))
                         sample_physics 3 4 eq_refl eq_refl) eq_refl)).
Defined.

Lemma Physics_setDirection_spec_witness :
  Physics_setDirection 3%positive 3 4 sample_world =
    Some (store_object 3%positive
            (mkComponent (Some 1%positive)
               (BPhysics (set_direction (mkVec2 (6 / 10) (8 / 10)) sample_physics)))
            sample_world).
Proof.
  exact (proj1 (proj2 (Physics_setDirection_spec sample_world 3%positive
                         (mkComponent (Some 1%positive) (BPhysics sample_physics))
                         sample_physics eq_refl eq_refl))).
Defined.

Lemma Physics_update_friction_flat_witness :
  exists w' : World,
    Physics_update 3%positive (1 / 60) sample_world = Some w'
    /\ speed <$> physics_at w' 3%positive = Some 9.
Proof.
  exact (Physics_update_friction_flat sample_world 3%positive
           (mkComponent (Some 1%positive) (BPhysics sample_physics))
           sample_physics (1 / 60) eq_refl eq_refl sample_owner_found
           eq_refl eq_refl eq_refl eq_refl eq_refl).
Defined.

Lemma Physics_update_static_witness :
  Physics_update 6%positive (1 / 60) sample_world = Some sample_world.
Proof.
  exact (Physics_update_static sample_world 6%positive
           (mkComponent (Some 1%positive) (BPhysics static_physics))
           static_physics (1 / 60) eq_refl eq_refl eq_refl).
Defined.

(** * More properties *)

(** ** The frame limiter over a session *)

Module LoopFacts.

Import Game.
Local Open Scope Q_scope.

Lemma updates_app (es1 es2 : list event) :
  updates (es1 ++ es2) = (updates es1 + updates es2)%nat.
Proof. unfold updates. rewrite filter_app, length_app. reflexivity. Qed.

Lemma renders_app (es1 es2 : list event) :
  renders (es1 ++ es2) = (renders es1 + renders es2)%nat.
Proof. unfold renders. rewrite filter_app, length_app. reflexivity. Qed.

Lemma js_rem_quotient (a b : Q) : js_rem a b = a - b * inject_Z (js_quot a b).
Proof. reflexivity. Qed.

Lemma quotient_floor (a b : Q) :
  0 < b -> 0 <= a -> js_quot a b = Qfloor (a / b).
Proof.
  intros Hb Ha. unfold js_quot.
  assert (Hq : 0 <= a / b).
  { apply Qle_shift_div_l; [exact Hb|]. rewrite Qmult_0_l. exact Ha. }
  destruct (a / b) as [n d]. simpl.
  apply Z.quot_div_nonneg; [|lia].
  unfold Qle in Hq. simpl in Hq. lia.
Qed.

Lemma quotient_ge_1 (a b : Q) : 0 < b -> b <= a -> (1 <= js_quot a b)%Z.
Proof.
  intros Hb Hab.
  rewrite quotient_floor; [|exact Hb|].
  - change 1%Z with (Qfloor 1). apply Qfloor_resp_le.
    apply Qle_shift_div_l; [exact Hb|]. rewrite Qmult_1_l. exact Hab.
  - apply Qle_trans with b; [apply Qlt_le_weak, Hb|exact Hab].
Qed.

Lemma js_rem_lt (a b : Q) : 0 < b -> 0 <= a -> js_rem a b < b.
Proof.
  intros Hb Ha. rewrite js_rem_quotient, quotient_floor by assumption.
  pose proof (Qlt_floor (a / b)) as Hfl.
  set (k := Qfloor (a / b)) in *.
  assert (Hbne : ~ b == 0).
  { intros E. rewrite E in Hb. discriminate. }
  assert (H : a < b * inject_Z (k + 1)).
  { apply Qle_lt_trans with (b * (a / b)).
    - rewrite Qmult_div_r by exact Hbne. apply Qle_refl.
    - apply Qmult_lt_l; assumption. }
  rewrite inject_Z_plus in H.
  apply (Qplus_lt_l _ _ (b * inject_Z k)). ring_simplify.
  setoid_replace (b * inject_Z k + b) with (b * (inject_Z k + inject_Z 1))
    using relation Qeq by ring.
  exact H.
Qed.

Lemma gameLoop_frame_state (g : Game) (t : Q) :
  isRunning g = true ->
  frameInterval g <= t - lastFrameTime g ->
  lastFrameTime (gameLoop t g)
    = t - js_rem (t - lastFrameTime g) (frameInterval g)
  /\ trace (gameLoop t g)
      = trace g ++ [Update ((t - lastFrameTime g) / 1000); Render;
                    RequestAnimationFrame]
  /\ isRunning (gameLoop t g) = true
  /\ frameInterval (gameLoop t g) = frameInterval g.
Proof.
  intros Hrun Hle. rewrite GameFacts.gameLoop_frame by assumption. simpl.
  rewrite <- !app_assoc. auto.
Qed.

Lemma gameLoop_skip_state (g : Game) (t : Q) :
  isRunning g = true ->
  t - lastFrameTime g < frameInterval g ->
  lastFrameTime (gameLoop t g) = lastFrameTime g
  /\ trace (gameLoop t g) = trace g ++ [RequestAnimationFrame]
  /\ isRunning (gameLoop t g) = true
  /\ frameInterval (gameLoop t g) = frameInterval g.
Proof.
  intros Hrun Hlt. rewrite GameFacts.gameLoop_skip by assumption. simpl. auto.
Qed.

(** A processed frame moves [lastFrameTime] forward by a whole number of
    intervals, at least one. *)
Lemma gameLoop_frame_advance (g : Game) (t : Q) :
  isRunning g = true ->
  0 < frameInterval g ->
  frameInterval g <= t - lastFrameTime g ->
  lastFrameTime (gameLoop t g)
    == lastFrameTime g
       + inject_Z (js_quot (t - lastFrameTime g) (frameInterval g))
         * frameInterval g.
Proof.
  intros Hrun Hpos Hle.
  destruct (gameLoop_frame_state g t Hrun Hle) as (-> & _).
  rewrite js_rem_quotient. ring.
Qed.

Lemma last_cons_default {A : Type} (l : list A) :
  forall x d : A, List.last (x :: l) d = List.last l x.
Proof.
  induction l as [|y l IH]; intros x d; [reflexivity|].
  change (List.last (x :: y :: l) d) with (List.last (y :: l) d).
  rewrite (IH y d), (IH y x). reflexivity.
Qed.

Lemma Qle_plus_mult_mono (a : Q) (k n : Z) (i b c : Q) :
  0 < i -> (1 <= k)%Z ->
  b == a + inject_Z k * i ->
  b + inject_Z n * i <= c ->
  a + inject_Z (1 + n) * i <= c.
Proof.
  intros Hi Hk Hb Hc.
  apply Qle_trans with (b + inject_Z n * i); [|exact Hc].
  rewrite Hb, inject_Z_plus.
  setoid_replace (a + (inject_Z 1 + inject_Z n) * i)
    with (inject_Z 1 * i + (a + inject_Z n * i)) using relation Qeq by ring.
  setoid_replace (a + inject_Z k * i + inject_Z n * i)
    with (inject_Z k * i + (a + inject_Z n * i)) using relation Qeq by ring.
  apply Qplus_le_l. apply Qmult_le_compat_r; [|apply Qlt_le_weak, Hi].
  rewrite <- Zle_Qle. exact Hk.
Qed.

(** Over callbacks that do not run backwards, each processed frame accounts
    for at least one interval of [lastFrameTime], which stays at or before
    the latest callback. *)
Lemma callbacks_frames (times : list Q) :
  forall (g : Game) (T : Q),
    isRunning g = true ->
    0 < frameInterval g ->
    lastFrameTime g <= T ->
    nondecreasing_from T times ->
    exists n : nat,
      updates (trace (callbacks times g)) = (updates (trace g) + n)%nat
      /\ renders (trace (callbacks times g)) = (renders (trace g) + n)%nat
      /\ lastFrameTime g + inject_Z (Z.of_nat n) * frameInterval g
           <= lastFrameTime (callbacks times g)
      /\ lastFrameTime (callbacks times g) <= List.last times T.
Proof.
  induction times as [|t times IH]; intros g T Hrun Hpos Hlast Hmono.
  - exists 0%nat. simpl. rewrite !Nat.add_0_r.
    split; [reflexivity|]. split; [reflexivity|]. split; [|exact Hlast].
    rewrite Qmult_0_l, Qplus_0_r. apply Qle_refl.
  - destruct Hmono as [HTt Hmono].
    assert (Hlt : lastFrameTime g <= t) by (eapply Qle_trans; eassumption).
    pose proof (GameFacts.gameLoop_lastFrameTime_le g t Hpos Hlt) as Hlast1.
    change (callbacks (t :: times) g) with (callbacks times (gameLoop t g)).
    rewrite last_cons_default.
    destruct (Qlt_le_dec (t - lastFrameTime g) (frameInterval g)) as [Hskip|Hframe].
    + destruct (gameLoop_skip_state g t Hrun Hskip) as (Hl & Htr & Hrun1 & Hint1).
      destruct (IH (gameLoop t g) t Hrun1 (ltac:(rewrite Hint1; exact Hpos))
                  Hlast1 Hmono) as (n & Hu & Hr & Hlo & Hhi).
      exists n. rewrite Hu, Hr, Htr, updates_app, renders_app. simpl.
      rewrite !Nat.add_0_r. split; [reflexivity|]. split; [reflexivity|].
      rewrite Hl, Hint1 in Hlo. auto.
    + destruct (gameLoop_frame_state g t Hrun Hframe) as (_ & Htr & Hrun1 & Hint1).
      pose proof (gameLoop_frame_advance g t Hrun Hpos Hframe) as Hadv.
      pose proof (quotient_ge_1 _ _ Hpos Hframe) as Hk.
      destruct (IH (gameLoop t g) t Hrun1 (ltac:(rewrite Hint1; exact Hpos))
                  Hlast1 Hmono) as (n & Hu & Hr & Hlo & Hhi).
      exists (S n). rewrite Hu, Hr, Htr, updates_app, renders_app.
      split; [unfold updates; simpl; lia|].
      split; [unfold renders; simpl; lia|].
      split; [|exact Hhi].
      rewrite Hint1 in Hlo.
      replace (Z.of_nat (S n)) with (1 + Z.of_nat n)%Z by lia.
      eapply Qle_plus_mult_mono; eassumption.
Qed.

Lemma gameLoop_steps (g : Game) (t : Q) :
  frameInterval g == 1000 / 60 ->
  steps_at_least (1 / 60) (trace g) ->
  steps_at_least (1 / 60) (trace (gameLoop t g)).
Proof.
  intros Hint Hsteps. unfold gameLoop.
  destruct (isRunning g); simpl; [|exact Hsteps].
  destruct (Qle_bool (frameInterval g) (t - lastFrameTime g)) eqn:Hle; simpl.
  - apply Qle_bool_iff in Hle. rewrite Hint in Hle.
    unfold steps_at_least in *. rewrite <- !app_assoc.
    apply Forall_app. split; [exact Hsteps|].
    repeat constructor.
    apply Qle_shift_div_l; [reflexivity|].
    eapply Qle_trans; [|exact Hle]. vm_compute. discriminate.
  - unfold steps_at_least in *. apply Forall_app. split; [exact Hsteps|].
    repeat constructor.
Qed.

End LoopFacts.

(** A processed frame carries the remainder over: afterwards the callback's
    timestamp is at or after [lastFrameTime] by less than one frame
    interval, and [lastFrameTime] has moved forward by a whole number of
    intervals, at least one. *)
Theorem gameLoop_carries_remainder (g : Game.Game) (currentTime : Q) :
  Game.isRunning g = true ->
  (0 < Game.frameInterval g)%Q ->
  (Game.frameInterval g <= currentTime - Game.lastFrameTime g)%Q ->
  let g' := Game.gameLoop currentTime g in
  (0 <= currentTime - Game.lastFrameTime g')%Q
  /\ (currentTime - Game.lastFrameTime g' < Game.frameInterval g)%Q
  /\ exists k : Z,
       (1 <= k)%Z
       /\ (Game.lastFrameTime g'
           == Game.lastFrameTime g + inject_Z k * Game.frameInterval g)%Q.
Proof.
  intros Hrun Hpos Hle g'.
  assert (Hnn : (0 <= currentTime - Game.lastFrameTime g)%Q).
  { apply Qle_trans with (Game.frameInterval g);
      [apply Qlt_le_weak, Hpos|exact Hle]. }
  destruct (LoopFacts.gameLoop_frame_state g currentTime Hrun Hle) as (Hlast & _).
  assert (Hrem : (currentTime - Game.lastFrameTime g'
                  == Game.js_rem (currentTime - Game.lastFrameTime g)
                       (Game.frameInterval g))%Q).
  { subst g'. rewrite Hlast. ring. }
  split; [|split].
  - rewrite Hrem. apply GameFacts.js_rem_nonneg; assumption.
  - rewrite Hrem. apply LoopFacts.js_rem_lt; assumption.
  - exists (js_quot (currentTime - Game.lastFrameTime g) (Game.frameInterval g)).
    split; [apply LoopFacts.quotient_ge_1; assumption|].
    apply LoopFacts.gameLoop_frame_advance; assumption.
Qed.

Lemma gameLoop_carries_remainder_witness :
  let g' := Game.gameLoop 40 (Game.start 0 Game.new_Game) in
  (0 <= 40 - Game.lastFrameTime g')%Q
  /\ (40 - Game.lastFrameTime g' < 1000 / 60)%Q.
Proof.
  destruct (gameLoop_carries_remainder (Game.start 0 Game.new_Game) 40
              eq_refl eq_refl) as (H1 & H2 & _).
  - vm_compute. discriminate.
  - split; [exact H1|exact H2].
Defined.

(** The frame limiter is a ceiling on the frame rate.  In a session started
    at [t0] whose callbacks do not run backwards, the frames processed up to
    the latest callback, each a full frame interval, fit in the time
    elapsed, and every update call is followed by its render call. *)
Theorem frame_rate_ceiling (t0 : Q) (times : list Q) :
  nondecreasing_from t0 times ->
  let g := Game.callbacks times (Game.start t0 Game.new_Game) in
  (inject_Z (Z.of_nat (Game.updates (Game.trace g))) * (1000 / 60)
     <= List.last times t0 - t0)%Q
  /\ Game.renders (Game.trace g) = Game.updates (Game.trace g).
Proof.
  intros Hmono g.
  destruct (LoopFacts.callbacks_frames times (Game.start t0 Game.new_Game) t0
              eq_refl eq_refl (Qle_refl _) Hmono) as (n & Hu & Hr & Hlo & Hhi).
  fold g in Hu, Hr, Hlo, Hhi. simpl in Hu, Hr. rewrite Hu, Hr.
  split; [|reflexivity].
  change (Game.lastFrameTime (Game.start t0 Game.new_Game)) with t0 in Hlo.
  change (Game.frameInterval (Game.start t0 Game.new_Game))
    with (1000 / 60)%Q in Hlo.
  apply (Qplus_le_l _ _ t0). ring_simplify.
  eapply Qle_trans; [|exact Hhi].
  eapply Qle_trans; [|exact Hlo].
  ring_simplify. apply Qle_refl.
Qed.

Lemma frame_rate_ceiling_witness :
  let g := Game.callbacks [10; 20; 30; 40]%Q (Game.start 0 Game.new_Game) in
  (inject_Z (Z.of_nat (Game.updates (Game.trace g))) * (1000 / 60) <= 40 - 0)%Q
  /\ Game.renders (Game.trace g) = Game.updates (Game.trace g).
Proof.
  apply (frame_rate_ceiling 0 [10; 20; 30; 40]%Q).
  simpl. repeat split; vm_compute; discriminate.
Defined.

(** The time step handed to [update] is never below one frame interval,
    1/60 s, in a session of a new game, whatever the timestamps are. *)
Theorem update_steps_at_least_one_frame (t0 : Q) (times : list Q) :
  steps_at_least (1 / 60)
    (Game.trace (Game.callbacks times (Game.start t0 Game.new_Game))).
Proof.
  assert (H : forall g,
             (Game.frameInterval g == 1000 / 60)%Q ->
             steps_at_least (1 / 60) (Game.trace g) ->
             steps_at_least (1 / 60) (Game.trace (Game.callbacks times g))).
  { induction times as [|t times IH]; intros g Hint Hsteps; [exact Hsteps|].
    apply IH.
    - destruct (GameFacts.gameLoop_keeps g t) as [_ ->]. exact Hint.
    - apply LoopFacts.gameLoop_steps; assumption. }
  apply H; [reflexivity|]. repeat constructor.
Qed.

(** [stop()] halts the loop at the next callback: once stopped, callbacks
    make no call at all, not even the request for the next frame. *)
Theorem stop_halts_the_loop (g : Game.Game) (times : list Q) :
  Game.callbacks times (Game.stop g) = Game.stop g.
Proof.
  induction times as [|t times IH]; [reflexivity|].
  simpl. rewrite GameFacts.gameLoop_stopped by reflexivity. exact IH.
Qed.

(** ** Physics: direction, forces and decay *)

Lemma sqrt_sum_squares_sqr (x y : R) :
  sqrt (x * x + y * y) * sqrt (x * x + y * y) = x * x + y * y.
Proof. apply sqrt_sqrt. nra. Qed.

Lemma Physics_setDirection_body_unit (x y : R) (p : Physics) :
  unit_vector (direction p) \/ sqrt (x * x + y * y) <> 0 ->
  unit_vector (direction (Physics_setDirection_body x y p)).
Proof.
  intros H. unfold Physics_setDirection_body.
  case_bool_decide as Hm.
  - simpl. unfold unit_vector. simpl.
    pose proof (sqrt_sum_squares_sqr x y) as Hsq.
    set (m := sqrt (x * x + y * y)) in *.
    assert (Hm0 : m <> 0) by lra.
    field_simplify_eq; [|exact Hm0]. lra.
  - destruct H as [H|H]; [exact H|].
    pose proof (sqrt_pos (x * x + y * y)). lra.
Qed.

(** [setDirection] keeps the stored direction a unit vector: after a call
    with a vector of non-zero magnitude the direction has length 1, and a
    call with the zero vector leaves a direction of length 1 as it is. *)
Theorem Physics_setDirection_unit (w : World) (this : loc) (c : Component)
    (p : Physics) (x y : R) :
  objects w !! this = Some c ->
  physics_of (body c) = Some p ->
  unit_vector (direction p) \/ sqrt (x * x + y * y) <> 0 ->
  exists (w' : World) (p' : Physics),
    Physics_setDirection this x y w = Some w'
    /\ physics_at w' this = Some p'
    /\ unit_vector (direction p')
    /\ speed p' = speed p
    /\ acceleration p' = acceleration p.
Proof.
  intros Hc Hp Hunit.
  exists (store_object this
            (set_body (with_physics (Physics_setDirection_body x y p) (body c)) c) w),
         (Physics_setDirection_body x y p).
  split; [apply Physics_setDirection_run; assumption|].
  split; [apply (physics_at_store w this c p _ Hp)|].
  split; [apply Physics_setDirection_body_unit; exact Hunit|].
  unfold Physics_setDirection_body. case_bool_decide; auto.
Qed.

Lemma Physics_setDirection_unit_witness :
  exists (w' : World) (p' : Physics),
    Physics_setDirection 3%positive 0 0 sample_world = Some w'
    /\ physics_at w' 3%positive = Some p'
    /\ unit_vector (direction p').
Proof.
  destruct (Physics_setDirection_unit sample_world 3%positive
              (mkComponent (Some 1%positive) (BPhysics sample_physics))
              sample_physics 0 0 eq_refl eq_refl)
    as (w' & p' & H1 & H2 & H3 & _).
  - left. unfold unit_vector. simpl. lra.
  - eauto.
Defined.

Lemma total_magnitude_nonneg (forces : list (R * R)) :
  0 <= total_magnitude forces.
Proof.
  induction forces as [|[fx fy] forces IH]; simpl; [lra|].
  pose proof (sqrt_pos (fx * fx + fy * fy)). lra.
Qed.

Lemma set_acceleration_twice (a b : R) (p : Physics) :
  set_acceleration a (set_acceleration b p) = set_acceleration a p.
Proof. reflexivity. Qed.

Lemma with_physics_overwrite (b : Body) (p q : Physics) :
  with_physics q (with_physics p b) = with_physics q b.
Proof. destruct b; reflexivity. Qed.

Lemma Rdiv_nonneg (a m : R) : 0 <= a -> 0 < m -> 0 <= a / m.
Proof.
  intros Ha Hm. unfold Rdiv. apply Rmult_le_pos; [exact Ha|].
  left. apply Rinv_0_lt_compat. exact Hm.
Qed.

Lemma store_object_twice (l : loc) (c c' : Component) (w : World) :
  store_object l c' (store_object l c w) = store_object l c' w.
Proof. unfold store_object. simpl. rewrite insert_insert_eq. reflexivity. Qed.

(** Forces accumulate by magnitude.  On a component that is not static, a
    run of [applyForce] calls adds the sum of the magnitudes of the forces,
    divided by the mass, to the acceleration accumulator, and changes nothing
    else in the store: forces that point in opposite directions do not
    cancel, and with a positive mass the accumulator never decreases. *)
Theorem Physics_forces_accumulate (forces : list (R * R)) :
  forall (w : World) (this : loc) (c : Component) (p : Physics),
    objects w !! this = Some c ->
    physics_of (body c) = Some p ->
    isStatic p = false ->
    run_calls this (force_calls forces) w
      = Some (store_object this
                (set_body
                   (with_physics
                      (set_acceleration
                         (acceleration p + total_magnitude forces / mass p) p)
                      (body c)) c) w)
    /\ (0 < mass p ->
        acceleration p <= acceleration p + total_magnitude forces / mass p).
Proof.
  induction forces as [|[fx fy] forces IH]; intros w this c p Hc Hp Hs.
  - simpl. split.
    + unfold Rdiv. rewrite Rmult_0_l, Rplus_0_r.
      replace (set_acceleration (acceleration p) p) with p
        by (destruct p; reflexivity).
      rewrite with_physics_same by exact Hp.
      rewrite set_body_same, store_object_same by exact Hc. reflexivity.
    + intros _. unfold Rdiv. rewrite Rmult_0_l. lra.
  - split.
    + simpl. unfold Physics_applyForce. rewrite Hc. simpl. rewrite Hp. simpl.
      rewrite Physics_applyForce_body_dynamic by exact Hs.
      set (p1 := set_acceleration
                   (acceleration p + sqrt (fx * fx + fy * fy) / mass p) p).
      set (c1 := set_body (with_physics p1 (body c)) c).
      destruct (IH (store_object this c1 w) this c1 p1) as [Hrun _].
      * simpl. apply lookup_insert_eq.
      * simpl. eapply physics_of_with_physics, Hp.
      * exact Hs.
      * rewrite Hrun. f_equal. rewrite store_object_twice. f_equal.
        subst c1. unfold set_body. simpl. f_equal.
        rewrite with_physics_overwrite. f_equal.
        subst p1. simpl. rewrite set_acceleration_twice. f_equal.
        unfold Rdiv. ring.
    + intros Hm. pose proof (total_magnitude_nonneg ((fx, fy) :: forces)) as Hn.
      assert (0 <= total_magnitude ((fx, fy) :: forces) / mass p).
      { apply Rdiv_nonneg; assumption. }
      lra.
Qed.

Lemma Physics_forces_accumulate_witness :
  run_calls 3%positive (force_calls [(3, 4); (-3, -4)]) sample_world
    = Some (store_object 3%positive
              (mkComponent (Some 1%positive)
                 (BPhysics
                    (set_acceleration
                       (acceleration sample_physics
                        + total_magnitude [(3, 4); (-3, -4)] / mass sample_physics)
                       sample_physics))) sample_world).
Proof.
  exact (proj1 (Physics_forces_accumulate [(3, 4); (-3, -4)] sample_world
                  3%positive
                  (mkComponent (Some 1%positive) (BPhysics sample_physics))
                  sample_physics eq_refl eq_refl eq_refl)).
Defined.

Lemma Physics_update_same (w : World) (this : loc) (c : Component)
    (p : Physics) (dt : R) :
  objects w !! this = Some c ->
  physics_of (body c) = Some p ->
  isStatic p = true ->
  Physics_update this dt w = Some w.
Proof.
  intros Hc Hp Hs. unfold Physics_update. rewrite Hc. simpl. rewrite Hp. simpl.
  rewrite Physics_update_body_static by exact Hs. simpl.
  rewrite with_physics_same by exact Hp.
  rewrite set_body_same. rewrite store_object_same by exact Hc. reflexivity.
Qed.

Lemma Physics_applyForce_same (w : World) (this : loc) (c : Component)
    (p : Physics) (fx fy : R) :
  objects w !! this = Some c ->
  physics_of (body c) = Some p ->
  isStatic p = true ->
  Physics_applyForce this fx fy w = Some w.
Proof.
  intros Hc Hp Hs. unfold Physics_applyForce. rewrite Hc. simpl. rewrite Hp.
  simpl. rewrite Physics_applyForce_body_static by exact Hs.
  rewrite with_physics_same by exact Hp.
  rewrite set_body_same. rewrite store_object_same by exact Hc. reflexivity.
Qed.

(** A static component is inert: any run of [update] and [applyForce] calls
    on it completes and leaves the whole store as it was. *)
Theorem Physics_static_inert (w : World) (this : loc) (c : Component)
    (p : Physics) (calls : list physics_call) :
  objects w !! this = Some c ->
  physics_of (body c) = Some p ->
  isStatic p = true ->
  run_calls this calls w = Some w.
Proof.
  intros Hc Hp Hs. induction calls as [|k calls IH]; [reflexivity|].
  simpl. destruct k as [dt|fx fy]; simpl.
  - rewrite (Physics_update_same w this c p dt Hc Hp Hs). exact IH.
  - rewrite (Physics_applyForce_same w this c p fx fy Hc Hp Hs). exact IH.
Qed.

Lemma Physics_static_inert_witness :
  run_calls 6%positive
    [CallApplyForce 3 4; CallUpdate (1 / 60); CallUpdate 1] sample_world
    = Some sample_world.
Proof.
  exact (Physics_static_inert sample_world 6%positive
           (mkComponent (Some 1%positive) (BPhysics static_physics))
           static_physics [CallApplyForce 3 4; CallUpdate (1 / 60); CallUpdate 1]
           eq_refl eq_refl eq_refl).
Defined.

(** What one [update] does on a component that is not static and whose
    entity holds a Transform: the speed becomes
    [min((speed + acceleration * dt) * friction, maxSpeed)], the accumulator
    is reset to 0, and the velocity of that Transform becomes the direction
    times the new speed; position, rotation and scale of the Transform,
    and every other object, are left as they were. *)
Theorem Physics_update_writes_velocity (w : World) (this : loc)
    (c : Component) (p : Physics) (e : loc) (ent : Entity) (l : loc)
    (tc : Component) (t : Transform) (deltaTime : R) :
  objects w !! this = Some c ->
  physics_of (body c) = Some p ->
  entity c = Some e ->
  entities w !! e = Some ent ->
  components ent !! "Transform" = Some l ->
  objects w !! l = Some tc ->
  body tc = BTransform t ->
  isStatic p = false ->
  exists (w' : World) (p' : Physics),
    Physics_update this deltaTime w = Some w'
    /\ physics_at w' this = Some p'
    /\ p' = set_acceleration 0
              (set_speed
                 (Rmin ((speed p + acceleration p * deltaTime) * friction p)
                    (maxSpeed p)) p)
    /\ transform_at w' l
       = Some (set_velocity
                 (mkVec2 (vec_x (direction p) * speed p')
                         (vec_y (direction p) * speed p')) t)
    /\ entities w' = entities w
    /\ (forall l', l' <> this -> l' <> l -> objects w' !! l' = objects w !! l').
Proof.
  intros Hc Hp He Hent Hk Hl Ht Hs.
  pose proof (owner_transform_found w e ent l tc t Hent Hk Hl Ht) as Ho.
  assert (Hne : this <> l).
  { intros ->. rewrite Hl in Hc. injection Hc as ->.
    rewrite Ht in Hp. discriminate. }
  unfold Physics_update. rewrite Hc. simpl. rewrite Hp. simpl.
  unfold Physics_update_body. rewrite Hs, He, Ho. simpl.
  eexists _, _. split; [reflexivity|].
  split; [apply (physics_at_store _ this c p _ Hp)|].
  split; [reflexivity|]. split; [|split].
  - unfold transform_at. simpl. rewrite lookup_insert_ne by exact Hne.
    rewrite lookup_insert_eq. reflexivity.
  - reflexivity.
  - intros l' H1 H2. simpl. rewrite !lookup_insert_ne by congruence.
    reflexivity.
Qed.

Lemma Physics_update_writes_velocity_witness :
  exists (w' : World) (p' : Physics),
    Physics_update 3%positive (1 / 60) sample_world = Some w'
    /\ physics_at w' 3%positive = Some p'
    /\ transform_at w' 2%positive
       = Some (set_velocity
                 (mkVec2 (vec_x (direction sample_physics) * speed p')
                         (vec_y (direction sample_physics) * speed p'))
                 sample_transform).
Proof.
  destruct (Physics_update_writes_velocity sample_world 3%positive
              (mkComponent (Some 1%positive) (BPhysics sample_physics))
              sample_physics 1%positive sample_entity 2%positive
              (mkComponent (Some 1%positive) (BTransform sample_transform))
              sample_transform (1 / 60)
              eq_refl eq_refl eq_refl eq_refl eq_refl eq_refl eq_refl eq_refl)
    as (w' & p' & H1 & H2 & _ & H4 & _).
  exists w', p'. auto.
Defined.

(** One [update] on a ready component, with the fields it leaves. *)
Lemma Physics_update_exact (this : loc) (owner : option loc) (M dt : R)
    (w : World) (p : Physics) :
  physics_ready this owner M w p ->
  exists w' : World,
    Physics_update this dt w = Some w'
    /\ physics_ready this owner M w'
         (set_acceleration 0
            (set_speed
               (Rmin ((speed p + acceleration p * dt) * friction p)
                  (maxSpeed p)) p)).
Proof.
  intros ((c & Hc & Hp & He) & Ho & Hs & Hm).
  unfold Physics_update. rewrite Hc. simpl. rewrite Hp. simpl.
  unfold Physics_update_body. rewrite Hs, He.
  destruct Ho as [r Hr]. rewrite Hr. simpl.
  set (w1 := match r with Some _ => _ | None => w end).
  eexists. split; [reflexivity|].
  assert (H1 : objects w1 !! this = Some c /\ is_Some (owner_transform owner w1)).
  { subst w1. destruct r as [[[l tc] t]|]; [|rewrite Hr; eauto].
    destruct (owner_transform_inv _ _ _ _ _ Hr) as [Hl Hb].
    split.
    - simpl. rewrite lookup_insert_ne; [exact Hc|].
      intros ->. rewrite Hl in Hc. injection Hc as ->.
      rewrite Hb in Hp. discriminate.
    - eapply owner_transform_store; [exact Hl| |rewrite Hr; eauto].
      intros t0 _. simpl. eauto. }
  destruct H1 as [Hc1 Ho1].
  split; [|split; [|split]].
  - eexists. split; [simpl; apply lookup_insert_eq|]. simpl.
    split; [eapply physics_of_with_physics, Hp|exact He].
  - eapply owner_transform_store; [exact Hc1| |exact Ho1].
    intros t Ht. rewrite Ht in Hp. discriminate.
  - exact Hs.
  - exact Hm.
Qed.

Lemma physics_ready_at (this : loc) (owner : option loc) (M : R) (w : World)
    (p : Physics) :
  physics_ready this owner M w p -> physics_at w this = Some p.
Proof.
  intros ((c & Hc & Hp & _) & _). unfold physics_at. rewrite Hc. exact Hp.
Qed.

Lemma coasting_decay_run (steps : list R) :
  forall (this : loc) (owner : option loc) (w : World) (p : Physics),
    physics_ready this owner (maxSpeed p) w p ->
    acceleration p = 0 ->
    0 <= friction p <= 1 ->
    speed p <= maxSpeed p ->
    0 <= maxSpeed p ->
    exists (w' : World) (p' : Physics),
      run_calls this (update_calls steps) w = Some w'
      /\ physics_ready this owner (maxSpeed p) w' p'
      /\ speed p' = speed p * friction p ^ length steps
      /\ acceleration p' = 0.
Proof.
  induction steps as [|dt steps IH]; intros this owner w p Hr Ha Hf Hv Hm.
  - exists w, p. simpl. split; [reflexivity|]. split; [exact Hr|].
    split; [lra|exact Ha].
  - destruct (Physics_update_exact this owner _ dt w p Hr) as (w1 & Hrun & Hr1).
    set (p1 := set_acceleration 0 _) in Hr1.
    assert (Hs1 : speed p1 = speed p * friction p).
    { subst p1. simpl. rewrite Ha.
      replace ((speed p + 0 * dt) * friction p) with (speed p * friction p)
        by ring.
      apply Rmin_left. destruct (Rle_dec 0 (speed p)); nra. }
    destruct (IH this owner w1 p1) as (w' & p' & Hrun' & Hr' & Hs' & Ha').
    + exact Hr1.
    + reflexivity.
    + exact Hf.
    + rewrite Hs1. simpl. destruct (Rle_dec 0 (speed p)); nra.
    + exact Hm.
    + exists w', p'. simpl. rewrite Hrun. simpl.
      split; [exact Hrun'|]. split; [exact Hr'|]. split; [|exact Ha'].
      rewrite Hs', Hs1. simpl. ring.
Qed.

(** Coasting decays the speed geometrically.  On a component that is not
    static, with an empty accumulator, friction in [0, 1] and a speed at most
    [maxSpeed >= 0], a run of [n] updates with no force in between leaves
    the speed [speed * friction ^ n], whatever the time steps are: the speed
    keeps its sign and never grows in magnitude. *)
Theorem Physics_coasting_decay (w : World) (this : loc) (c : Component)
    (p : Physics) (steps : list R) :
  objects w !! this = Some c ->
  physics_of (body c) = Some p ->
  is_Some (owner_transform (entity c) w) ->
  isStatic p = false ->
  acceleration p = 0 ->
  0 <= friction p <= 1 ->
  speed p <= maxSpeed p ->
  0 <= maxSpeed p ->
  exists (w' : World) (p' : Physics),
    run_calls this (update_calls steps) w = Some w'
    /\ physics_at w' this = Some p'
    /\ speed p' = speed p * friction p ^ length steps
    /\ acceleration p' = 0.
Proof.
  intros Hc Hp Ho Hs Ha Hf Hv Hm.
  assert (Hr : physics_ready this (entity c) (maxSpeed p) w p).
  { split; [eauto|]. auto. }
  destruct (coasting_decay_run steps this (entity c) w p Hr Ha Hf Hv Hm)
    as (w' & p' & Hrun & Hr' & Hs' & Ha').
  exists w', p'. split; [exact Hrun|].
  split; [eapply physics_ready_at, Hr'|]. auto.
Qed.

Lemma Physics_coasting_decay_witness :
  exists (w' : World) (p' : Physics),
    run_calls 3%positive (update_calls [1 / 60; 1 / 30; 1]) sample_world = Some w'
    /\ physics_at w' 3%positive = Some p'
    /\ speed p' = speed sample_physics * friction sample_physics ^ 3
    /\ acceleration p' = 0.
Proof.
  apply (Physics_coasting_decay sample_world 3%positive
           (mkComponent (Some 1%positive) (BPhysics sample_physics))
           sample_physics [1 / 60; 1 / 30; 1] eq_refl eq_refl
           sample_owner_found eq_refl eq_refl);
    simpl; lra.
Defined.

(** ** Entity: the component map *)

Lemma Entity_hasComponent_true (e : Entity) (k : string) (l : loc) :
  components e !! k = Some l -> Entity_hasComponent e k = true.
Proof.
  intros H. unfold Entity_hasComponent. apply bool_decide_eq_true_2. eauto.
Qed.

Lemma Entity_hasComponent_false (e : Entity) (k : string) :
  components e !! k = None -> Entity_hasComponent e k = false.
Proof.
  intros H. unfold Entity_hasComponent. apply bool_decide_eq_false_2.
  rewrite H. intros [x Hx]. discriminate.
Qed.

(** After [addComponent(k, c)], whether [k] was present or not,
    [hasComponent(k)] is true and [getComponent(k)] is [c]; the other
    entries, the id, the active flag and the tags of the entity, and every
    other entity, are as before. *)
Theorem Entity_addComponent_then_get (w : World) (this : loc) (k : string)
    (component : loc) (e : Entity) (c : Component) :
  entities w !! this = Some e ->
  objects w !! component = Some c ->
  exists (w' : World) (e' : Entity),
    Entity_addComponent this k component w = Some w'
    /\ entities w' !! this = Some e'
    /\ Entity_hasComponent e' k = true
    /\ Entity_getComponent e' k = Some component
    /\ (forall k', k' <> k ->
          Entity_getComponent e' k' = Entity_getComponent e k'
          /\ Entity_hasComponent e' k' = Entity_hasComponent e k')
    /\ ent_id e' = ent_id e /\ active e' = active e /\ tags e' = tags e
    /\ (forall l, l <> this -> entities w' !! l = entities w !! l).
Proof.
  intros He Hc. unfold Entity_addComponent. rewrite He, Hc. simpl.
  set (e' := set_components (<[k := component]> (components e)) e).
  exists (match entity c with
          | Some _ => store_entity this e' w
          | None => store_object component (set_entity (Some this) c)
                      (store_entity this e' w)
          end), e'.
  split; [destruct (entity c); reflexivity|].
  assert (Hk : components e' !! k = Some component).
  { subst e'. simpl. apply lookup_insert_eq. }
  split; [destruct (entity c); simpl; apply lookup_insert_eq|].
  split; [eapply Entity_hasComponent_true, Hk|].
  split; [exact Hk|].
  split.
  { intros k' Hne. unfold Entity_getComponent, Entity_hasComponent.
    subst e'. simpl. rewrite lookup_insert_ne by congruence. auto. }
  split; [reflexivity|]. split; [reflexivity|]. split; [reflexivity|].
  intros l Hne. destruct (entity c); simpl; apply lookup_insert_ne; congruence.
Qed.

Lemma Entity_addComponent_then_get_witness :
  exists (w' : World) (e' : Entity),
    Entity_addComponent 9%positive "Physics" 4%positive sample_world = Some w'
    /\ entities w' !! 9%positive = Some e'
    /\ Entity_hasComponent e' "Physics" = true
    /\ Entity_getComponent e' "Physics" = Some 4%positive.
Proof.
  destruct (Entity_addComponent_then_get sample_world 9%positive "Physics"
              4%positive (mkEntity (Some 1%Z) ∅ true ∅)
              (mkComponent None (BPhysics sample_physics)) eq_refl eq_refl)
    as (w' & e' & H1 & H2 & H3 & H4 & _).
  exists w', e'. auto.
Defined.

(** [removeComponent(k)].  When [k] is absent the call changes nothing.
    When it is present, [hasComponent(k)] is false afterwards, the other
    entries are kept, the [cleanup] hook of the removed component is called
    exactly once if it has one and no hook is called otherwise, and no
    component object is changed: the removed component keeps its
    back-reference to the entity. *)
Theorem Entity_removeComponent_spec (w : World) (this : loc) (k : string)
    (e : Entity) :
  entities w !! this = Some e ->
  (components e !! k = None -> Entity_removeComponent this k w = Some w)
  /\ (forall (component : loc) (c : Component),
        components e !! k = Some component ->
        objects w !! component = Some c ->
        exists (w' : World) (e' : Entity),
          Entity_removeComponent this k w = Some w'
          /\ entities w' !! this = Some e'
          /\ Entity_hasComponent e' k = false
          /\ (forall k', k' <> k -> components e' !! k' = components e !! k')
          /\ cleanup_calls w'
             = cleanup_calls w ++ (if has_cleanup c then [component] else [])
          /\ objects w' = objects w).
Proof.
  intros He. unfold Entity_removeComponent. rewrite He. simpl. split.
  - intros Hk. rewrite Hk. reflexivity.
  - intros component c Hk Hc. rewrite Hk, Hc. simpl.
    eexists _, _. split; [reflexivity|]. simpl.
    split; [apply lookup_insert_eq|].
    split; [apply Entity_hasComponent_false; simpl; apply lookup_delete_eq|].
    split; [intros k' Hne; simpl; apply lookup_delete_ne; congruence|].
    destruct (has_cleanup c); simpl; [auto|].
    rewrite app_nil_r. auto.
Qed.

Lemma Entity_removeComponent_spec_witness :
  exists (w' : World) (e' : Entity),
    Entity_removeComponent 1%positive "Physics" sample_world = Some w'
    /\ entities w' !! 1%positive = Some e'
    /\ Entity_hasComponent e' "Physics" = false
    /\ cleanup_calls w' = [3%positive]
    /\ objects w' = objects sample_world.
Proof.
  destruct (Entity_removeComponent_spec sample_world 1%positive "Physics"
              sample_entity eq_refl) as [_ Hpresent].
  destruct (Hpresent 3%positive
              (mkComponent (Some 1%positive) (BPhysics sample_physics))
              eq_refl eq_refl)
    as (w' & e' & H1 & H2 & H3 & _ & H5 & H6).
  exists w', e'. auto.
Defined.

(** Moving a component keeps its first owner.  A component attached to
    entity [a] that is removed from [a] and then added to another entity [b]
    is held by [b] and no longer by [a], but its back-reference still names
    [a]: neither call resets it. *)
Theorem component_moved_keeps_owner (w : World) (a b : loc) (k : string)
    (component : loc) (ea eb : Entity) (c : Component) :
  a <> b ->
  entities w !! a = Some ea ->
  entities w !! b = Some eb ->
  components ea !! k = Some component ->
  objects w !! component = Some c ->
  entity c = Some a ->
  exists (w1 w2 : World) (ea' eb' : Entity) (c' : Component),
    Entity_removeComponent a k w = Some w1
    /\ Entity_addComponent b k component w1 = Some w2
    /\ entities w2 !! a = Some ea'
    /\ entities w2 !! b = Some eb'
    /\ Entity_hasComponent ea' k = false
    /\ Entity_getComponent eb' k = Some component
    /\ objects w2 !! component = Some c'
    /\ entity c' = Some a.
Proof.
  intros Hab Ha Hb Hk Hc Hown.
  unfold Entity_removeComponent. rewrite Ha. simpl. rewrite Hk, Hc. simpl.
  unfold Entity_addComponent.
  destruct (has_cleanup c); simpl;
    eexists _, _, _, _, c; (split; [reflexivity|]); simpl;
    rewrite lookup_insert_ne by exact Hab; rewrite Hb; simpl;
    rewrite Hc; simpl; rewrite Hown;
    (split; [reflexivity|]); simpl;
    (split; [rewrite lookup_insert_ne by congruence; apply lookup_insert_eq|]);
    (split; [apply lookup_insert_eq|]);
    (split; [apply Entity_hasComponent_false; simpl; apply lookup_delete_eq|]);
    (split; [unfold Entity_getComponent; simpl; apply lookup_insert_eq|]);
    auto.
Qed.

Lemma component_moved_keeps_owner_witness :
  exists (w1 w2 : World) (c' : Component),
    Entity_removeComponent 1%positive "Physics" sample_world = Some w1
    /\ Entity_addComponent 9%positive "Physics" 3%positive w1 = Some w2
    /\ objects w2 !! 3%positive = Some c'
    /\ entity c' = Some 1%positive.
Proof.
  destruct (component_moved_keeps_owner sample_world 1%positive 9%positive
              "Physics" 3%positive sample_entity (mkEntity (Some 1%Z) ∅ true ∅)
              (mkComponent (Some 1%positive) (BPhysics sample_physics))
              ltac:(discriminate) eq_refl eq_refl eq_refl eq_refl eq_refl)
    as (w1 & w2 & ea' & eb' & c' & H1 & H2 & _ & _ & _ & _ & H7 & H8).
  exists w1, w2, c'. auto.
Defined.

(** ** The track grid: cells, tiles and start positions *)

Lemma Math_floor_bounds (r : R) : IZR (Math_floor r) <= r < IZR (Math_floor r) + 1.
Proof.
  unfold Math_floor. destruct (base_Int_part r) as [Hlo Hhi]. lra.
Qed.

(** [worldToGrid] sends a point to the tile whose rectangle holds it: the
    result is [(col, row)] exactly when [col * 40 <= x < (col + 1) * 40] and
    [row * 40 <= y < (row + 1) * 40]; negative coordinates round down. *)
Theorem worldToGrid_cell (x y : R) (col row : Z) :
  GameConfig.worldToGrid x y = (col, row)
  <-> (IZR col * GameConfig.TILE_WIDTH <= x
         < (IZR col + 1) * GameConfig.TILE_WIDTH
       /\ IZR row * GameConfig.TILE_HEIGHT <= y
            < (IZR row + 1) * GameConfig.TILE_HEIGHT).
Proof.
  unfold GameConfig.worldToGrid, GameConfig.TILE_WIDTH, GameConfig.TILE_HEIGHT.
  split.
  - intros [= <- <-].
    pose proof (Math_floor_bounds (x / 40)).
    pose proof (Math_floor_bounds (y / 40)). lra.
  - intros [Hx Hy]. f_equal; apply Math_floor_spec; lra.
Qed.

Lemma worldToGrid_cell_witness :
  GameConfig.worldToGrid 100 (-50) = (2%Z, (-2)%Z).
Proof.
  apply (proj2 (worldToGrid_cell 100 (-50) 2 (-2))).
  unfold GameConfig.TILE_WIDTH, GameConfig.TILE_HEIGHT. lra.
Defined.

Lemma TRACK_GRID_length : length GameConfig.TRACK_GRID = 300%nat.
Proof. reflexivity. Qed.

Lemma TRACK_GRID_tiles :
  Forall (fun t => (0 <= t <= 5)%Z) GameConfig.TRACK_GRID.
Proof.
  apply Forall_forall. intros t Ht. apply list_elem_of_In in Ht.
  assert (H : forallb (fun t => (0 <=? t)%Z && (t <=? 5)%Z)
                GameConfig.TRACK_GRID = true) by reflexivity.
  rewrite forallb_forall in H. specialize (H t Ht).
  apply andb_prop in H. destruct H as [H1 H2].
  apply Z.leb_le in H1. apply Z.leb_le in H2. lia.
Qed.

Lemma getTrackTileAt_in_grid (col row : Z) :
  (0 <= col < GameConfig.COLS)%Z -> (0 <= row < GameConfig.ROWS)%Z ->
  GameConfig.getTrackTileAt col row
    = GameConfig.TRACK_GRID !! Z.to_nat (row * GameConfig.COLS + col).
Proof.
  unfold GameConfig.getTrackTileAt, GameConfig.COLS, GameConfig.ROWS.
  intros Hc Hr.
  rewrite !Z.geb_leb.
  replace (col <? 0)%Z with false by (symmetry; apply Z.ltb_ge; lia).
  replace (20 <=? col)%Z with false by (symmetry; apply Z.leb_gt; lia).
  replace (row <? 0)%Z with false by (symmetry; apply Z.ltb_ge; lia).
  replace (15 <=? row)%Z with false by (symmetry; apply Z.leb_gt; lia).
  reflexivity.
Qed.

Lemma getTrackTileAt_off_grid (col row : Z) :
  ~ ((0 <= col < GameConfig.COLS)%Z /\ (0 <= row < GameConfig.ROWS)%Z) ->
  GameConfig.getTrackTileAt col row = Some GameConfig.WALL.
Proof.
  unfold GameConfig.getTrackTileAt, GameConfig.COLS, GameConfig.ROWS.
  intros Hout.
  rewrite !Z.geb_leb.
  destruct (col <? 0)%Z eqn:H1; [reflexivity|].
  destruct (20 <=? col)%Z eqn:H2; [reflexivity|].
  destruct (row <? 0)%Z eqn:H3; [reflexivity|].
  destruct (15 <=? row)%Z eqn:H4; [reflexivity|].
  exfalso. apply Hout.
  apply Z.ltb_ge in H1, H3. apply Z.leb_gt in H2, H4. lia.
Qed.

(** [getTrackTileAt] never returns [undefined]: for all integers [col] and
    [row] the result is one of the six tile codes, and outside the grid it is
    WALL, so that [isObstacle] holds there. *)
Theorem getTrackTileAt_defined (col row : Z) :
  exists t : Z,
    GameConfig.getTrackTileAt col row = Some t
    /\ (0 <= t <= 5)%Z
    /\ (~ ((0 <= col < GameConfig.COLS)%Z /\ (0 <= row < GameConfig.ROWS)%Z) ->
        t = GameConfig.WALL /\ GameConfig.isObstacle col row = true).
Proof.
  destruct (decide ((0 <= col < GameConfig.COLS)%Z
                    /\ (0 <= row < GameConfig.ROWS)%Z)) as [[Hc Hr]|Hout].
  - rewrite getTrackTileAt_in_grid by assumption.
    unfold GameConfig.COLS, GameConfig.ROWS in *.
    destruct (lookup_lt_is_Some_2 GameConfig.TRACK_GRID
                (Z.to_nat (row * 20 + col))) as [t Ht].
    { rewrite TRACK_GRID_length. lia. }
    exists t. split; [exact Ht|]. split.
    + pose proof TRACK_GRID_tiles as Hall.
      rewrite Forall_lookup in Hall. exact (Hall _ _ Ht).
    + intros Hout. exfalso. apply Hout. auto.
  - exists GameConfig.WALL. split; [apply getTrackTileAt_off_grid, Hout|].
    split; [unfold GameConfig.WALL; lia|].
    intros _. split; [reflexivity|].
    unfold GameConfig.isObstacle. rewrite getTrackTileAt_off_grid by exact Hout.
    reflexivity.
Qed.

Lemma getTrackTileAt_defined_witness :
  exists t : Z,
    GameConfig.getTrackTileAt (-1) 3 = Some t
    /\ t = GameConfig.WALL /\ GameConfig.isObstacle (-1) 3 = true.
Proof.
  destruct (getTrackTileAt_defined (-1) 3) as (t & Ht & _ & Hout).
  exists t. split; [exact Ht|]. apply Hout.
  unfold GameConfig.COLS. lia.
Defined.

Lemma getPlayerStartPositions_elem (p : StartPosition) :
  p ∈ getPlayerStartPositions
  <-> exists col row : Z,
        (0 <= col < GameConfig.COLS)%Z /\ (0 <= row < GameConfig.ROWS)%Z
        /\ GameConfig.getTrackTileAt col row = Some GameConfig.PLAYER_START
        /\ p = mkStartPosition
                 (fst (GameConfig.gridToWorld (IZR col) (IZR row)))
                 (snd (GameConfig.gridToWorld (IZR col) (IZR row)))
                 START_ANGLE.
Proof.
  unfold getPlayerStartPositions. rewrite list_elem_of_bind. split.
  - intros (row & Hp & Hrow). rewrite list_elem_of_bind in Hp.
    destruct Hp as (col & Hp & Hcol).
    apply elem_of_seqZ in Hrow, Hcol.
    case_bool_decide as Htile; [|inversion Hp].
    apply list_elem_of_singleton in Hp.
    exists col, row. repeat split; try lia; assumption.
  - intros (col & row & Hcol & Hrow & Htile & ->).
    exists row. split; [|apply elem_of_seqZ; lia].
    rewrite list_elem_of_bind. exists col. split; [|apply elem_of_seqZ; lia].
    rewrite bool_decide_eq_true_2 by exact Htile.
    apply list_elem_of_singleton. reflexivity.
Qed.

(** [getPlayerStartPositions()] returns exactly the centres of the tiles of
    type PLAYER_START, each with the start angle [PI / 2]: every entry is
    the centre of such a tile of the grid, and every such tile has its
    entry. *)
Theorem getPlayerStartPositions_spec (p : StartPosition) :
  p ∈ getPlayerStartPositions
  <-> exists col row : Z,
        (0 <= col < GameConfig.COLS)%Z /\ (0 <= row < GameConfig.ROWS)%Z
        /\ GameConfig.getTrackTileAt col row = Some GameConfig.PLAYER_START
        /\ p = mkStartPosition (IZR col * 40 + 20) (IZR row * 40 + 20) (PI / 2).
Proof.
  rewrite getPlayerStartPositions_elem.
  split; intros (col & row & Hcol & Hrow & Htile & ->);
    exists col, row; (split; [exact Hcol|]); (split; [exact Hrow|]);
    (split; [exact Htile|]);
    unfold GameConfig.gridToWorld, GameConfig.TILE_WIDTH,
      GameConfig.TILE_HEIGHT, START_ANGLE; simpl; f_equal; lra.
Qed.

Lemma getPlayerStartPositions_spec_witness :
  mkStartPosition (IZR 16 * 40 + 20) (IZR 2 * 40 + 20) (PI / 2)
    ∈ getPlayerStartPositions.
Proof.
  apply (proj2 (getPlayerStartPositions_spec _)). exists 16%Z, 2%Z.
  repeat split; try (unfold GameConfig.COLS, GameConfig.ROWS; lia).
Defined.

(** Cars spawn on obstacle cells: the grid cell of every start position is
    a tile that [isObstacle] classifies as an obstacle, because a
    PLAYER_START tile is not a ROAD tile. *)
Theorem start_positions_are_obstacles (p : StartPosition) :
  p ∈ getPlayerStartPositions ->
  on_obstacle (mkVec2 (start_x p) (start_y p)) = true.
Proof.
  intros Hp. apply getPlayerStartPositions_elem in Hp.
  destruct Hp as (col & row & Hcol & Hrow & Htile & ->).
  unfold on_obstacle, cell_of. cbn [start_x start_y vec_x vec_y].
  assert (Hcell : GameConfig.worldToGrid
                    (fst (GameConfig.gridToWorld (IZR col) (IZR row)))
                    (snd (GameConfig.gridToWorld (IZR col) (IZR row)))
                  = (col, row)).
  { unfold GameConfig.gridToWorld, GameConfig.worldToGrid,
      GameConfig.TILE_WIDTH, GameConfig.TILE_HEIGHT. simpl.
    f_equal; apply Math_floor_spec; lra. }
  rewrite Hcell. cbn [fst snd]. unfold GameConfig.isObstacle. rewrite Htile.
  reflexivity.
Qed.

Lemma start_position_16_2 :
  mkStartPosition (fst (GameConfig.gridToWorld (IZR 16) (IZR 2)))
    (snd (GameConfig.gridToWorld (IZR 16) (IZR 2))) START_ANGLE
    ∈ getPlayerStartPositions.
Proof.
  apply getPlayerStartPositions_elem. exists 16%Z, 2%Z.
  repeat split; try (unfold GameConfig.COLS, GameConfig.ROWS; lia).
Qed.

Lemma start_positions_are_obstacles_witness :
  on_obstacle
    (mkVec2 (fst (GameConfig.gridToWorld (IZR 16) (IZR 2)))
            (snd (GameConfig.gridToWorld (IZR 16) (IZR 2)))) = true.
Proof.
  exact (start_positions_are_obstacles _ start_position_16_2).
Defined.

(** ** MovementSystem *)

Lemma Entity_hasComponents_two (e : Entity) (k1 k2 : string) :
  Entity_hasComponents e [k1; k2]
    = Entity_hasComponent e k1 && Entity_hasComponent e k2.
Proof. unfold Entity_hasComponents. simpl. rewrite andb_true_r. reflexivity. Qed.



Lemma Physics_update_body_moving (o : option loc) (dt : R) (p : Physics)
    (w : World) (l : loc) (tc : Component) (t : Transform) :
  isStatic p = false ->
  owner_transform o w = Some (Some (l, tc, t)) ->
  Physics_update_body o dt p w
    = Some (set_acceleration 0
              (set_speed
                 (Rmin ((speed p + acceleration p * dt) * friction p)
                    (maxSpeed p)) p),
            store_object l
              (set_body
                 (BTransform
                    (set_velocity
                       (mkVec2
                          (vec_x (direction p)
                           * Rmin ((speed p + acceleration p * dt) * friction p)
                               (maxSpeed p))
                          (vec_y (direction p)
                           * Rmin ((speed p + acceleration p * dt) * friction p)
                               (maxSpeed p))) t)) tc) w).
Proof.
  intros Hs Ho. unfold Physics_update_body. rewrite Hs, Ho. reflexivity.
Qed.

Lemma store_object_inj (l : loc) (c c' : Component) (w : World) :
  store_object l c w = store_object l c' w -> c = c'.
Proof.
  intros H. apply (f_equal (fun w => objects w !! l)) in H. simpl in H.
  rewrite !lookup_insert_eq in H. congruence.
Qed.

Lemma Component_update_transform (w : World) (l : loc) (c : Component)
    (t : Transform) (dt : R) :
  objects w !! l = Some c ->
  body c = BTransform t ->
  Component_update l dt w
    = Some (store_object l (set_body (BTransform (Transform_update dt t)) c) w).
Proof.
  intros Hl Hb. unfold Component_update. rewrite Hl. simpl. rewrite Hb.
  reflexivity.
Qed.

(** The physics step of a tick, for a Physics or a CarPhysics that is not
    static and whose entity holds the Transform at [l]: the store it leaves
    holds the Transform with the new velocity, and the component with the
    clamped speed, or that speed times the bounce coefficient. *)
Lemma Component_update_physics (w : World) (this : loc) (c : Component)
    (p : Physics) (e : loc) (ent : Entity) (l : loc) (tc : Component)
    (t : Transform) (dt : R) :
  objects w !! this = Some c ->
  physics_of (body c) = Some p ->
  entity c = Some e ->
  entities w !! e = Some ent ->
  components ent !! "Transform" = Some l ->
  objects w !! l = Some tc ->
  body tc = BTransform t ->
  isStatic p = false ->
  exists (c' : Component) (p' : Physics),
    Component_update this dt w
      = Some (store_object this c'
                (store_object l
                   (set_body
                      (BTransform
                         (set_velocity
                            (mkVec2
                               (vec_x (direction p)
                                * Rmin ((speed p + acceleration p * dt)
                                        * friction p) (maxSpeed p))
                               (vec_y (direction p)
                                * Rmin ((speed p + acceleration p * dt)
                                        * friction p) (maxSpeed p))) t)) tc) w))
    /\ physics_of (body c') = Some p'
    /\ (speed p' = Rmin ((speed p + acceleration p * dt) * friction p)
                     (maxSpeed p)
        \/ speed p' = Rmin ((speed p + acceleration p * dt) * friction p)
                        (maxSpeed p) * GameConfig.COLLISION_BOUNCE)
    /\ (forall q, body c = BPhysics q ->
          speed p' = Rmin ((speed p + acceleration p * dt) * friction p)
                       (maxSpeed p)).
Proof.
  intros Hc Hp He Hent Hk Hl Ht Hs.
  pose proof (owner_transform_found w e ent l tc t Hent Hk Hl Ht) as Ho.
  pose proof (Physics_update_body_moving (Some e) dt p w l tc t Hs Ho) as Hmove.
  unfold Component_update. rewrite Hc. simpl.
  destruct (body c) as [t0|q|cp|k] eqn:Hb; simpl in Hp; try discriminate.
  - injection Hp as ->.
    unfold Physics_update. rewrite Hc. simpl. rewrite Hb. simpl.
    rewrite He, Hmove. simpl.
    eexists _, _. split; [reflexivity|]. simpl.
    split; [reflexivity|]. simpl. auto.
  - injection Hp as <-.
    destruct (CarPhysics_update_body_found (Some e) dt cp w l tc t Ho)
      as (p1 & w1 & cp1 & t1 & Hrun & _ & Hb1 & _ & _ & _ & _ & _ & _ & Hupd).
    rewrite Hmove in Hrun. injection Hrun as <- <-.
    rewrite <- He in Hupd.
    destruct (CarPhysics_update_run w this c cp _ dt _ Hc Hb Hupd) as [Hw' _].
    rewrite Hw'.
    eexists _, _. split; [reflexivity|]. simpl.
    split; [reflexivity|].
    split; [|intros q [=]].
    destruct (_ && _ && _); simpl; [right; reflexivity|left].
    rewrite Hb1. reflexivity.
Qed.

(** One tick of [MovementSystem] on an active entity that holds a Transform
    and a Physics (or CarPhysics) attached to it and not static.  The
    Transform moves by the velocity the physics step has just written,
    direction times the clamped speed, times the time step.  This also holds
    on a tick where a car bounces off the track: the bounce coefficient goes
    into the stored speed only, and the move of that tick is made with the
    speed before the bounce. *)
Theorem MovementSystem_tick (w : World) (owner : loc) (e : Entity)
    (this l : loc) (c tc : Component) (p : Physics) (t : Transform)
    (deltaTime : R) :
  entities w !! owner = Some e ->
  active e = true ->
  components e !! "Transform" = Some l ->
  components e !! "Physics" = Some this ->
  objects w !! this = Some c ->
  physics_of (body c) = Some p ->
  entity c = Some owner ->
  objects w !! l = Some tc ->
  body tc = BTransform t ->
  isStatic p = false ->
  let s := Rmin ((speed p + acceleration p * deltaTime) * friction p)
             (maxSpeed p) in
  exists (w' : World) (p' : Physics) (t' : Transform),
    MovementSystem_update_entity owner deltaTime w = Some w'
    /\ physics_at w' this = Some p'
    /\ transform_at w' l = Some t'
    /\ velocity t' = mkVec2 (vec_x (direction p) * s) (vec_y (direction p) * s)
    /\ position t'
       = mkVec2 (vec_x (position t) + vec_x (direction p) * s * deltaTime)
                (vec_y (position t) + vec_y (direction p) * s * deltaTime)
    /\ (speed p' = s \/ speed p' = s * GameConfig.COLLISION_BOUNCE)
    /\ (forall q, body c = BPhysics q -> speed p' = s).
Proof.
  intros He Hact Hkt Hkp Hc Hp Hown Hl Ht Hs s.
  destruct (Component_update_physics w this c p owner e l tc t deltaTime
              Hc Hp Hown He Hkt Hl Ht Hs)
    as (c' & p' & Hphys & Hp' & Hspeed & Hplain).
  assert (Hne : this <> l).
  { intros ->. rewrite Hl in Hc. injection Hc as ->.
    rewrite Ht in Hp. discriminate. }
  unfold MovementSystem_update_entity. rewrite He. cbn [mbind option_bind].
  rewrite Entity_hasComponents_two.
  rewrite (Entity_hasComponent_true e "Transform" l Hkt).
  rewrite (Entity_hasComponent_true e "Physics" this Hkp), Hact. simpl.
  unfold Entity_getComponent. rewrite Hkt, Hkp. simpl.
  rewrite Hphys. simpl.
  erewrite Component_update_transform;
    [|simpl; rewrite lookup_insert_ne by exact Hne; apply lookup_insert_eq
     |reflexivity].
  eexists _, p', _. split; [reflexivity|].
  split.
  { unfold physics_at. simpl. rewrite lookup_insert_ne by congruence.
    rewrite lookup_insert_eq. exact Hp'. }
  split.
  { unfold transform_at. simpl. rewrite lookup_insert_eq. reflexivity. }
  simpl. split; [reflexivity|]. split; [reflexivity|]. auto.
Qed.

Lemma MovementSystem_tick_witness :
  exists (w' : World) (p' : Physics) (t' : Transform),
    MovementSystem_update_entity 1%positive (1 / 60) (car_world driving_car)
      = Some w'
    /\ physics_at w' 3%positive = Some p'
    /\ transform_at w' 2%positive = Some t'
    /\ (speed p' = Rmin ((50 + 0 * (1 / 60)) * GameConfig.GROUND_SPEED_DECAY)
                     GameConfig.MAX_SPEED
        \/ speed p' = Rmin ((50 + 0 * (1 / 60)) * GameConfig.GROUND_SPEED_DECAY)
                        GameConfig.MAX_SPEED * GameConfig.COLLISION_BOUNCE).
Proof.
  destruct (MovementSystem_tick (car_world driving_car) 1%positive
              sample_entity 3%positive 2%positive
              (mkComponent (Some 1%positive) (BCarPhysics driving_car))
              (mkComponent (Some 1%positive) (BTransform wall_transform))
              (base driving_car) wall_transform (1 / 60)
              eq_refl eq_refl eq_refl eq_refl eq_refl eq_refl eq_refl eq_refl
              eq_refl eq_refl)
    as (w' & p' & t' & H1 & H2 & H3 & _ & _ & H6 & _).
  exists w', p', t'. auto.
Defined.

(** ** InputManager *)

Lemma handle_key_events_keeps (evs : list key_event) :
  forall im : InputManager,
    keyMappings (handle_key_events evs im) = keyMappings im
    /\ actionStates (handle_key_events evs im) = actionStates im
    /\ previousKeys (handle_key_events evs im) = previousKeys im.
Proof.
  induction evs as [|ev evs IH]; intros im; [auto|].
  simpl. destruct (IH (handle_key_event ev im)) as (-> & -> & ->).
  destruct ev; auto.
Qed.

Lemma handle_key_events_app (evs1 evs2 : list key_event) (im : InputManager) :
  handle_key_events (evs1 ++ evs2) im
    = handle_key_events evs2 (handle_key_events evs1 im).
Proof. unfold handle_key_events. apply fold_left_app. Qed.

Lemma isActionDown_update (im : InputManager) (action : string) :
  isActionDown (InputManager_update im) action = true
  <-> exists keyCode,
        keyMappings im !! action = Some keyCode
        /\ keys im !! keyCode = Some true.
Proof.
  unfold isActionDown, InputManager_update. simpl.
  rewrite bool_decide_eq_true, lookup_fmap.
  destruct (keyMappings im !! action) as [k|]; simpl.
  - unfold isKeyDown. split.
    + intros [= H]. apply bool_decide_eq_true in H. eauto.
    + intros (k' & [= <-] & H). f_equal. apply bool_decide_eq_true. exact H.
  - split; [discriminate|]. intros (k' & H & _). discriminate.
Qed.

(** Actions are a snapshot taken by [update()].  After [update()], an action
    is down exactly when it is mapped to a key that was down at that moment,
    and the key events that come before the next [update()] do not change
    what [isActionDown] answers. *)
Theorem actions_are_a_snapshot (im : InputManager) (action : string) :
  (isActionDown (InputManager_update im) action = true
   <-> exists keyCode,
         keyMappings im !! action = Some keyCode
         /\ keys im !! keyCode = Some true)
  /\ forall evs : list key_event,
       isActionDown (handle_key_events evs (InputManager_update im)) action
         = isActionDown (InputManager_update im) action.
Proof.
  split; [apply isActionDown_update|].
  intros evs. unfold isActionDown.
  destruct (handle_key_events_keeps evs (InputManager_update im))
    as (_ & -> & _).
  reflexivity.
Qed.

Lemma actions_are_a_snapshot_witness :
  isActionDown
    (InputManager_update
       (handleKeyDown "KeyW" (mapAction "player1Up" "KeyW" new_InputManager)))
    "player1Up" = true.
Proof.
  destruct (actions_are_a_snapshot
              (handleKeyDown "KeyW"
                 (mapAction "player1Up" "KeyW" new_InputManager))
              "player1Up") as [[_ H] _].
  apply H. exists "KeyW". split; reflexivity.
Defined.

(** A tap between two frames is lost: when the last key event before an
    [update()] is the release of a key, no action mapped to that key is down
    after the [update()], however the key went down and up before. *)
Theorem tap_between_frames_is_lost (im : InputManager) (action code : string)
    (evs : list key_event) :
  keyMappings im !! action = Some code ->
  isActionDown
    (InputManager_update (handle_key_events (evs ++ [KeyUp code]) im)) action
    = false.
Proof.
  intros Hmap. apply not_true_is_false. intros Hdown.
  apply isActionDown_update in Hdown.
  destruct Hdown as (k & Hk & Hkey).
  destruct (handle_key_events_keeps (evs ++ [KeyUp code]) im) as (Hm & _).
  rewrite Hm, Hmap in Hk. injection Hk as <-.
  rewrite handle_key_events_app in Hkey. simpl in Hkey.
  rewrite lookup_insert_eq in Hkey. discriminate.
Qed.

Lemma tap_between_frames_is_lost_witness :
  isActionDown
    (InputManager_update
       (handle_key_events ([KeyDown "KeyW"] ++ [KeyUp "KeyW"])
          (mapAction "player1Up" "KeyW" new_InputManager))) "player1Up"
    = false.
Proof.
  exact (tap_between_frames_is_lost
           (mapAction "player1Up" "KeyW" new_InputManager)
           "player1Up" "KeyW" [KeyDown "KeyW"] eq_refl).
Defined.

(** Edge detection.  A key is never both just pressed and just released;
    right after [update()] no key is either; a key that was up at the
    [update()] is just pressed after its key-down event, and one that was
    down is just released after its key-up event, until the next
    [update()]. *)
Theorem key_edges (im : InputManager) (code : string) :
  isKeyPressed im code && isKeyReleased im code = false
  /\ isKeyPressed (InputManager_update im) code = false
  /\ isKeyReleased (InputManager_update im) code = false
  /\ (isKeyDown im code = false ->
      isKeyPressed (handleKeyDown code (InputManager_update im)) code = true)
  /\ (isKeyDown im code = true ->
      isKeyReleased (handleKeyUp code (InputManager_update im)) code = true).
Proof.
  unfold isKeyPressed, isKeyReleased, isKeyDown. simpl.
  rewrite !lookup_insert_eq.
  destruct (bool_decide (keys im !! code = Some true)) eqn:Hk;
    destruct (bool_decide (previousKeys im !! code = Some true)) eqn:Hp;
    simpl; repeat split; try reflexivity; try discriminate.
Qed.

Lemma key_edges_witness :
  isKeyPressed
    (handleKeyDown "KeyW" (InputManager_update new_InputManager)) "KeyW"
  = true.
Proof.
  destruct (key_edges new_InputManager "KeyW") as (_ & _ & _ & H & _).
  apply H. reflexivity.
Defined.

(** ** CarInput: the control law *)

Lemma cos_sin_unit (r : R) : cos r * cos r + sin r * sin r = 1.
Proof. pose proof (sin2_cos2 r) as H. unfold Rsqr in H. lra. Qed.

Lemma magnitude_scaled (r k : R) :
  0 <= k ->
  sqrt (cos r * k * (cos r * k) + sin r * k * (sin r * k)) = k.
Proof.
  intros Hk.
  replace (cos r * k * (cos r * k) + sin r * k * (sin r * k))
    with ((cos r * cos r + sin r * sin r) * (k * k)) by ring.
  rewrite cos_sin_unit, Rmult_1_l. apply sqrt_square. exact Hk.
Qed.

Lemma magnitude_scaled_opp (r k : R) :
  0 <= k ->
  sqrt (- cos r * k * (- cos r * k) + - sin r * k * (- sin r * k)) = k.
Proof.
  intros Hk.
  replace (- cos r * k * (- cos r * k) + - sin r * k * (- sin r * k))
    with ((cos r * cos r + sin r * sin r) * (k * k)) by ring.
  rewrite cos_sin_unit, Rmult_1_l. apply sqrt_square. exact Hk.
Qed.

Lemma Physics_setDirection_body_angle (r : R) (p : Physics) :
  Physics_setDirection_body (cos r) (sin r) p
    = set_direction (mkVec2 (cos r) (sin r)) p.
Proof.
  unfold Physics_setDirection_body. rewrite cos_sin_unit, sqrt_1.
  rewrite bool_decide_eq_true_2 by lra.
  unfold Rdiv. rewrite Rinv_1, !Rmult_1_r. reflexivity.
Qed.

Lemma CarInput_applyInputToPhysics_run (w : World) (owner : loc) (e : Entity)
    (pl tl : loc) (pc tc : Component) (p : Physics) (t : Transform)
    (input : CarInput) :
  entities w !! owner = Some e ->
  components e !! "Physics" = Some pl ->
  components e !! "Transform" = Some tl ->
  objects w !! pl = Some pc ->
  physics_of (body pc) = Some p ->
  objects w !! tl = Some tc ->
  body tc = BTransform t ->
  exists w' : World,
    CarInput_applyInputToPhysics owner input w = Some w'
    /\ physics_at w' pl
       = Some (fst (CarInput_applyInputToPhysics_body input p t))
    /\ transform_at w' tl
       = Some (snd (CarInput_applyInputToPhysics_body input p t))
    /\ entities w' = entities w
    /\ (forall l, l <> pl -> l <> tl -> objects w' !! l = objects w !! l).
Proof.
  intros He Hkp Hkt Hpl Hp Htl Ht.
  assert (Hne : pl <> tl).
  { intros ->. rewrite Htl in Hpl. injection Hpl as ->.
    rewrite Ht in Hp. discriminate. }
  unfold CarInput_applyInputToPhysics, Entity_getComponent.
  rewrite He. simpl. rewrite Hkp, Hkt, Hpl. simpl. rewrite Hp. simpl.
  rewrite Htl. simpl. rewrite Ht.
  destruct (CarInput_applyInputToPhysics_body input p t) as [p' t'] eqn:Hbody.
  eexists. split; [reflexivity|]. simpl.
  split.
  { unfold physics_at. simpl. rewrite lookup_insert_ne by congruence.
    rewrite lookup_insert_eq. simpl. eapply physics_of_with_physics, Hp. }
  split.
  { unfold transform_at. simpl. rewrite lookup_insert_eq. reflexivity. }
  split; [reflexivity|].
  intros l H1 H2. rewrite !lookup_insert_ne by congruence. reflexivity.
Qed.

Lemma CarInput_body_direction (input : CarInput) (p : Physics) (t : Transform) :
  let '(p', t') := CarInput_applyInputToPhysics_body input p t in
  direction p' = mkVec2 (cos (rotation t')) (sin (rotation t'))
  /\ rotation t'
     = rotation t + (if rightPressed input then TURN_RATE else 0)
       - (if leftPressed input then TURN_RATE else 0)
  /\ position t' = position t
  /\ velocity t' = velocity t
  /\ scale t' = scale t.
Proof.
  unfold CarInput_applyInputToPhysics_body.
  rewrite Physics_setDirection_body_angle. simpl.
  split; [reflexivity|].
  destruct (leftPressed input), (rightPressed input); simpl;
    repeat split; lra.
Qed.

(** After [applyInputToPhysics], whatever keys are held, the direction of
    the Physics is the unit vector of the Transform's rotation,
    [(cos rotation, sin rotation)], and the rotation has changed by the turn
    rate to the right, to the left, or not at all when both or neither of
    left and right are held; position and velocity are untouched. *)
Theorem CarInput_direction_follows_rotation (w : World) (owner : loc)
    (e : Entity) (pl tl : loc) (pc tc : Component) (p : Physics)
    (t : Transform) (input : CarInput) :
  entities w !! owner = Some e ->
  components e !! "Physics" = Some pl ->
  components e !! "Transform" = Some tl ->
  objects w !! pl = Some pc ->
  physics_of (body pc) = Some p ->
  objects w !! tl = Some tc ->
  body tc = BTransform t ->
  exists (w' : World) (p' : Physics) (t' : Transform),
    CarInput_applyInputToPhysics owner input w = Some w'
    /\ physics_at w' pl = Some p'
    /\ transform_at w' tl = Some t'
    /\ direction p' = mkVec2 (cos (rotation t')) (sin (rotation t'))
    /\ unit_vector (direction p')
    /\ rotation t'
       = rotation t + (if rightPressed input then TURN_RATE else 0)
         - (if leftPressed input then TURN_RATE else 0)
    /\ position t' = position t
    /\ velocity t' = velocity t.
Proof.
  intros He Hkp Hkt Hpl Hp Htl Ht.
  destruct (CarInput_applyInputToPhysics_run w owner e pl tl pc tc p t input
              He Hkp Hkt Hpl Hp Htl Ht) as (w' & Hrun & Hp' & Ht' & _).
  pose proof (CarInput_body_direction input p t) as Hbody.
  destruct (CarInput_applyInputToPhysics_body input p t) as [p' t'].
  destruct Hbody as (Hd & Hr & Hpos & Hvel & _).
  exists w', p', t'. repeat (split; [assumption|]).
  split; [|auto].
  rewrite Hd. unfold unit_vector. simpl. apply cos_sin_unit.
Qed.

Lemma CarInput_body_throttle (input : CarInput) (p : Physics) (t : Transform) :
  gasPressed input = true ->
  reversePressed input = false ->
  isStatic p = false ->
  let p' := fst (CarInput_applyInputToPhysics_body input p t) in
  acceleration p' = acceleration p + DRIVE_POWER / mass p
  /\ speed p' = speed p.
Proof.
  intros Hg Hr Hs. unfold CarInput_applyInputToPhysics_body.
  rewrite Hg, Hr. simpl.
  rewrite Physics_setDirection_body_angle. simpl.
  rewrite Physics_applyForce_body_dynamic by exact Hs. simpl.
  rewrite magnitude_scaled by (unfold DRIVE_POWER; lra). auto.
Qed.

Lemma CarInput_body_coast (input : CarInput) (p : Physics) (t : Transform) :
  gasPressed input = false ->
  reversePressed input = false ->
  let p' := fst (CarInput_applyInputToPhysics_body input p t) in
  speed p' = speed p * BRAKE_POWER
  /\ acceleration p' = acceleration p.
Proof.
  intros Hg Hr. unfold CarInput_applyInputToPhysics_body.
  rewrite Hg, Hr. simpl.
  rewrite Physics_setDirection_body_angle. simpl. auto.
Qed.

Lemma CarInput_body_reverse (input : CarInput) (p : Physics) (t : Transform) :
  gasPressed input = false ->
  reversePressed input = true ->
  isStatic p = false ->
  let p' := fst (CarInput_applyInputToPhysics_body input p t) in
  (speed p > 2 ->
     speed p' = speed p * ACTIVE_BRAKE_POWER
     /\ acceleration p' = acceleration p)
  /\ (-1 < speed p <= 2 ->
        acceleration p' = acceleration p + REVERSE_POWER / mass p
        /\ speed p' = speed p)
  /\ (speed p <= -1 ->
        speed p' = speed p /\ acceleration p' = acceleration p).
Proof.
  intros Hg Hr Hs. unfold CarInput_applyInputToPhysics_body.
  rewrite Hg, Hr. simpl.
  rewrite Physics_setDirection_body_angle. simpl.
  split; [|split].
  - intros Hv. rewrite bool_decide_eq_true_2 by exact Hv. simpl. auto.
  - intros [Hlo Hhi]. rewrite bool_decide_eq_false_2 by lra.
    rewrite bool_decide_eq_true_2 by lra.
    rewrite Physics_applyForce_body_dynamic by exact Hs. simpl.
    rewrite magnitude_scaled_opp by (unfold REVERSE_POWER; lra). auto.
  - intros Hv. rewrite bool_decide_eq_false_2 by lra.
    rewrite bool_decide_eq_false_2 by lra. simpl. auto.
Qed.

(** Throttle and coasting.  With "up" held and "down" not, on a Physics that
    is not static, [applyInputToPhysics] adds [DRIVE_POWER / mass] to the
    acceleration accumulator, whatever the rotation of the car, and leaves
    the speed.  With neither held it multiplies the speed by [BRAKE_POWER]
    and leaves the accumulator. *)
Theorem CarInput_throttle_and_coast (w : World) (owner : loc) (e : Entity)
    (pl tl : loc) (pc tc : Component) (p : Physics) (t : Transform)
    (input : CarInput) :
  entities w !! owner = Some e ->
  components e !! "Physics" = Some pl ->
  components e !! "Transform" = Some tl ->
  objects w !! pl = Some pc ->
  physics_of (body pc) = Some p ->
  objects w !! tl = Some tc ->
  body tc = BTransform t ->
  reversePressed input = false ->
  exists (w' : World) (p' : Physics),
    CarInput_applyInputToPhysics owner input w = Some w'
    /\ physics_at w' pl = Some p'
    /\ (gasPressed input = true -> isStatic p = false ->
        acceleration p' = acceleration p + DRIVE_POWER / mass p
        /\ speed p' = speed p)
    /\ (gasPressed input = false ->
        speed p' = speed p * BRAKE_POWER
        /\ acceleration p' = acceleration p).
Proof.
  intros He Hkp Hkt Hpl Hp Htl Ht Hr.
  destruct (CarInput_applyInputToPhysics_run w owner e pl tl pc tc p t input
              He Hkp Hkt Hpl Hp Htl Ht) as (w' & Hrun & Hp' & _).
  exists w', (fst (CarInput_applyInputToPhysics_body input p t)).
  split; [exact Hrun|]. split; [exact Hp'|]. split.
  - intros Hg Hs. apply CarInput_body_throttle; assumption.
  - intros Hg. apply CarInput_body_coast; assumption.
Qed.

Lemma CarInput_throttle_and_coast_witness :
  exists (w' : World) (p' : Physics),
    CarInput_applyInputToPhysics 1%positive
      (mkCarInput (mkKeyBindings "player1Up" "player1Down" "player1Left"
                     "player1Right") true false false false)
      sample_world = Some w'
    /\ physics_at w' 3%positive = Some p'
    /\ acceleration p'
       = acceleration sample_physics + DRIVE_POWER / mass sample_physics
    /\ speed p' = speed sample_physics.
Proof.
  destruct (CarInput_throttle_and_coast sample_world 1%positive sample_entity
              3%positive 2%positive
              (mkComponent (Some 1%positive) (BPhysics sample_physics))
              (mkComponent (Some 1%positive) (BTransform sample_transform))
              sample_physics sample_transform
              (mkCarInput (mkKeyBindings "player1Up" "player1Down"
                             "player1Left" "player1Right")
                 true false false false)
              eq_refl eq_refl eq_refl eq_refl eq_refl eq_refl eq_refl eq_refl)
    as (w' & p' & H1 & H2 & H3 & _).
  exists w', p'. split; [exact H1|]. split; [exact H2|].
  exact (H3 eq_refl eq_refl).
Defined.

(** "Down" never pushes backwards.  With "down" held and "up" not, on a
    Physics that is not static: above speed 2 the speed is multiplied by
    [ACTIVE_BRAKE_POWER]; between -1 (excluded) and 2 the call adds
    [REVERSE_POWER / mass] to the acceleration accumulator, the same sign as
    the throttle, because [applyForce] takes the magnitude of the force; at
    speed -1 or below it changes neither speed nor accumulator. *)
Theorem CarInput_reverse (w : World) (owner : loc) (e : Entity)
    (pl tl : loc) (pc tc : Component) (p : Physics) (t : Transform)
    (input : CarInput) :
  entities w !! owner = Some e ->
  components e !! "Physics" = Some pl ->
  components e !! "Transform" = Some tl ->
  objects w !! pl = Some pc ->
  physics_of (body pc) = Some p ->
  objects w !! tl = Some tc ->
  body tc = BTransform t ->
  gasPressed input = false ->
  reversePressed input = true ->
  isStatic p = false ->
  exists (w' : World) (p' : Physics),
    CarInput_applyInputToPhysics owner input w = Some w'
    /\ physics_at w' pl = Some p'
    /\ (speed p > 2 ->
        speed p' = speed p * ACTIVE_BRAKE_POWER
        /\ acceleration p' = acceleration p)
    /\ (-1 < speed p <= 2 ->
        acceleration p' = acceleration p + REVERSE_POWER / mass p
        /\ speed p' = speed p)
    /\ (speed p <= -1 ->
        speed p' = speed p /\ acceleration p' = acceleration p).
Proof.
  intros He Hkp Hkt Hpl Hp Htl Ht Hg Hr Hs.
  destruct (CarInput_applyInputToPhysics_run w owner e pl tl pc tc p t input
              He Hkp Hkt Hpl Hp Htl Ht) as (w' & Hrun & Hp' & _).
  exists w', (fst (CarInput_applyInputToPhysics_body input p t)).
  split; [exact Hrun|]. split; [exact Hp'|].
  apply CarInput_body_reverse; assumption.
Qed.

Lemma CarInput_reverse_witness :
  exists (w' : World) (p' : Physics),
    CarInput_applyInputToPhysics 1%positive
      (mkCarInput (mkKeyBindings "player1Up" "player1Down" "player1Left"
                     "player1Right") false true false false)
      (car_world new_CarPhysics) = Some w'
    /\ physics_at w' 3%positive = Some p'
    /\ acceleration p'
       = acceleration (base new_CarPhysics)
         + REVERSE_POWER / mass (base new_CarPhysics).
Proof.
  destruct (CarInput_reverse (car_world new_CarPhysics) 1%positive
              sample_entity 3%positive 2%positive
              (mkComponent (Some 1%positive) (BCarPhysics new_CarPhysics))
              (mkComponent (Some 1%positive) (BTransform wall_transform))
              (base new_CarPhysics) wall_transform
              (mkCarInput (mkKeyBindings "player1Up" "player1Down"
                             "player1Left" "player1Right")
                 false true false false)
              eq_refl eq_refl eq_refl eq_refl eq_refl eq_refl eq_refl eq_refl
              eq_refl eq_refl)
    as (w' & p' & H1 & H2 & _ & H4 & _).
  exists w', p'. split; [exact H1|]. split; [exact H2|].
  apply H4. simpl. lra.
Defined.

Lemma CarInput_direction_follows_rotation_witness :
  exists (w' : World) (p' : Physics) (t' : Transform),
    CarInput_applyInputToPhysics 1%positive
      (mkCarInput (mkKeyBindings "player1Up" "player1Down" "player1Left"
                     "player1Right") false false true false)
      sample_world = Some w'
    /\ physics_at w' 3%positive = Some p'
    /\ transform_at w' 2%positive = Some t'
    /\ direction p' = mkVec2 (cos (rotation t')) (sin (rotation t'))
    /\ unit_vector (direction p').
Proof.
  destruct (CarInput_direction_follows_rotation sample_world 1%positive
              sample_entity 3%positive 2%positive
              (mkComponent (Some 1%positive) (BPhysics sample_physics))
              (mkComponent (Some 1%positive) (BTransform sample_transform))
              sample_physics sample_transform
              (mkCarInput (mkKeyBindings "player1Up" "player1Down"
                             "player1Left" "player1Right")
                 false false true false)
              eq_refl eq_refl eq_refl eq_refl eq_refl eq_refl eq_refl)
    as (w' & p' & t' & H1 & H2 & H3 & H4 & H5 & _).
  exists w', p', t'. auto.
Defined.

Lemma Physics_applyForce_body_fields (fx fy : R) (p : Physics) :
  let p' := Physics_applyForce_body fx fy p in
  speed p' = speed p /\ maxSpeed p' = maxSpeed p /\ friction p' = friction p
  /\ mass p' = mass p /\ isStatic p' = isStatic p
  /\ (0 < mass p -> acceleration p <= acceleration p').
Proof.
  unfold Physics_applyForce_body.
  destruct (isStatic p) eqn:Hs; simpl; [repeat split; auto; lra|].
  case_bool_decide as Hm; simpl; repeat split; auto; try lra.
  intros Hmass.
  pose proof (Rdiv_nonneg (sqrt (fx * fx + fy * fy)) (mass p)
                (sqrt_pos _) Hmass). lra.
Qed.

(** What the control law keeps: with a positive mass, a non-negative
    accumulator and a non-negative speed stay non-negative, and the
    parameters of the Physics are untouched. *)
Lemma CarInput_body_nonneg (input : CarInput) (p : Physics) (t : Transform) :
  0 < mass p -> 0 <= acceleration p -> 0 <= speed p ->
  let p' := fst (CarInput_applyInputToPhysics_body input p t) in
  0 <= acceleration p' /\ 0 <= speed p'
  /\ isStatic p' = isStatic p /\ maxSpeed p' = maxSpeed p
  /\ friction p' = friction p /\ mass p' = mass p.
Proof.
  intros Hm Ha Hv. unfold CarInput_applyInputToPhysics_body.
  rewrite Physics_setDirection_body_angle. cbn [fst].
  set (p1 := if gasPressed input then _ else p).
  assert (H1 : 0 <= acceleration p1 /\ 0 <= speed p1
               /\ isStatic p1 = isStatic p /\ maxSpeed p1 = maxSpeed p
               /\ friction p1 = friction p /\ mass p1 = mass p).
  { subst p1. destruct (gasPressed input); [|auto 10].
    match goal with |- context [Physics_applyForce_body ?a ?b p] =>
      destruct (Physics_applyForce_body_fields a b p)
        as (-> & -> & -> & -> & -> & Hacc) end.
    specialize (Hacc Hm). repeat split; auto; lra. }
  destruct H1 as (Ha1 & Hv1 & Hs1 & Hm1 & Hf1 & Hmass1).
  set (p2 := if reversePressed input then _ else p1).
  assert (H2 : 0 <= acceleration p2 /\ 0 <= speed p2
               /\ isStatic p2 = isStatic p /\ maxSpeed p2 = maxSpeed p
               /\ friction p2 = friction p /\ mass p2 = mass p).
  { subst p2. destruct (reversePressed input); [|auto 10].
    case_bool_decide as Hfast.
    - simpl. repeat split; auto. unfold ACTIVE_BRAKE_POWER. nra.
    - case_bool_decide as Hslow; [|auto 10].
      match goal with |- context [Physics_applyForce_body ?a ?b p1] =>
        destruct (Physics_applyForce_body_fields a b p1)
          as (-> & -> & -> & -> & -> & Hacc) end.
      rewrite Hmass1 in Hacc. specialize (Hacc Hm).
      repeat split; auto; lra. }
  destruct H2 as (Ha2 & Hv2 & Hs2 & Hm2 & Hf2 & Hmass2).
  destruct (negb (gasPressed input) && negb (reversePressed input)); simpl;
    repeat split; auto.
  unfold BRAKE_POWER. nra.
Qed.

Lemma CarInput_applyInputToPhysics_store (w : World) (owner : loc)
    (e : Entity) (pl tl : loc) (pc tc : Component) (p : Physics)
    (t : Transform) (input : CarInput) :
  entities w !! owner = Some e ->
  components e !! "Physics" = Some pl ->
  components e !! "Transform" = Some tl ->
  objects w !! pl = Some pc ->
  physics_of (body pc) = Some p ->
  objects w !! tl = Some tc ->
  body tc = BTransform t ->
  CarInput_applyInputToPhysics owner input w
    = Some (store_object tl
              (set_body
                 (BTransform (snd (CarInput_applyInputToPhysics_body input p t)))
                 tc)
              (store_object pl
                 (set_body
                    (with_physics
                       (fst (CarInput_applyInputToPhysics_body input p t))
                       (body pc)) pc) w)).
Proof.
  intros He Hkp Hkt Hpl Hp Htl Ht.
  unfold CarInput_applyInputToPhysics, Entity_getComponent.
  rewrite He. simpl. rewrite Hkp, Hkt, Hpl. simpl. rewrite Hp. simpl.
  rewrite Htl. simpl. rewrite Ht.
  destruct (CarInput_applyInputToPhysics_body input p t) as [p' t'].
  reflexivity.
Qed.

(** There is no reverse gear.  One tick of the control law followed by the
    physics update, on a Physics that is not static, with a positive mass,
    friction and [maxSpeed] not negative and a time step not negative: a
    speed that is not negative stays so, whatever keys are held, and the
    accumulator is empty again.  Only the bounce of a collision, whose
    coefficient is negative, makes a speed negative. *)
Theorem no_reverse_gear (w : World) (owner : loc) (e : Entity)
    (pl tl : loc) (pc tc : Component) (p : Physics) (t : Transform)
    (input : CarInput) (deltaTime : R) :
  entities w !! owner = Some e ->
  components e !! "Physics" = Some pl ->
  components e !! "Transform" = Some tl ->
  objects w !! pl = Some pc ->
  physics_of (body pc) = Some p ->
  entity pc = Some owner ->
  objects w !! tl = Some tc ->
  body tc = BTransform t ->
  isStatic p = false ->
  0 < mass p -> 0 <= friction p -> 0 <= maxSpeed p -> 0 <= deltaTime ->
  0 <= speed p -> 0 <= acceleration p ->
  exists (w1 w2 : World) (p2 : Physics),
    CarInput_applyInputToPhysics owner input w = Some w1
    /\ Physics_update pl deltaTime w1 = Some w2
    /\ physics_at w2 pl = Some p2
    /\ 0 <= speed p2
    /\ acceleration p2 = 0
    /\ isStatic p2 = false /\ mass p2 = mass p
    /\ friction p2 = friction p /\ maxSpeed p2 = maxSpeed p.
Proof.
  intros He Hkp Hkt Hpl Hp Hown Htl Ht Hs Hm Hf HM Hdt Hv Ha.
  assert (Hne : pl <> tl).
  { intros ->. rewrite Htl in Hpl. injection Hpl as ->.
    rewrite Ht in Hp. discriminate. }
  pose proof (CarInput_applyInputToPhysics_store w owner e pl tl pc tc p t
                input He Hkp Hkt Hpl Hp Htl Ht) as Hrun1.
  pose proof (CarInput_body_nonneg input p t Hm Ha Hv) as Hbody.
  destruct (CarInput_applyInputToPhysics_body input p t) as [p1 t1].
  cbn [fst snd] in *.
  destruct Hbody as (Ha1 & Hv1 & Hs1 & HM1 & Hf1 & Hm1).
  set (pc1 := set_body (with_physics p1 (body pc)) pc) in *.
  set (tc1 := set_body (BTransform t1) tc) in *.
  set (w1 := store_object tl tc1 (store_object pl pc1 w)) in *.
  assert (Hpl1 : objects w1 !! pl = Some pc1).
  { subst w1. simpl. rewrite lookup_insert_ne by congruence.
    apply lookup_insert_eq. }
  assert (Hp1 : physics_of (body pc1) = Some p1).
  { subst pc1. simpl. eapply physics_of_with_physics, Hp. }
  assert (Ho1 : owner_transform (Some owner) w1 = Some (Some (tl, tc1, t1))).
  { apply (owner_transform_found w1 owner e tl tc1 t1); try assumption.
    - subst w1. simpl. apply lookup_insert_eq.
    - reflexivity. }
  exists w1. eexists _, _. split; [exact Hrun1|].
  split.
  { unfold Physics_update. rewrite Hpl1. cbn [mbind option_bind].
    rewrite Hp1. cbn [mbind option_bind].
    replace (entity pc1) with (Some owner) by (symmetry; exact Hown).
    rewrite (Physics_update_body_moving (Some owner) deltaTime p1 w1 tl tc1 t1)
      by (congruence || assumption).
    reflexivity. }
  split; [apply (physics_at_store _ pl pc1 p1 _ Hp1)|].
  simpl. rewrite HM1, Hf1, Hm1, Hs1.
  split; [|auto].
  apply Rmin_glb; [|exact HM].
  apply Rmult_le_pos; [|exact Hf].
  pose proof (Rmult_le_pos _ _ Ha1 Hdt). lra.
Qed.

Lemma no_reverse_gear_witness :
  exists (w1 w2 : World) (p2 : Physics),
    CarInput_applyInputToPhysics 1%positive
      (mkCarInput (mkKeyBindings "player1Up" "player1Down" "player1Left"
                     "player1Right") false true false false)
      sample_world = Some w1
    /\ Physics_update 3%positive (1 / 60) w1 = Some w2
    /\ physics_at w2 3%positive = Some p2
    /\ 0 <= speed p2.
Proof.
  destruct (no_reverse_gear sample_world 1%positive sample_entity
              3%positive 2%positive
              (mkComponent (Some 1%positive) (BPhysics sample_physics))
              (mkComponent (Some 1%positive) (BTransform sample_transform))
              sample_physics sample_transform
              (mkCarInput (mkKeyBindings "player1Up" "player1Down"
                             "player1Left" "player1Right")
                 false true false false)
              (1 / 60)
              eq_refl eq_refl eq_refl eq_refl eq_refl eq_refl eq_refl eq_refl
              eq_refl)
    as (w1 & w2 & p2 & H1 & H2 & H3 & H4 & _); try (simpl; lra).
  exists w1, w2, p2. auto.
Defined.

(** ** The entity registry *)

Section JsMap.

Context {V : Type}.
Implicit Types (m : list (Z * V)) (k : Z) (v : V).

Lemma jsmap_get_set_eq k v m : jsmap_get k (jsmap_set k v m) = Some v.
Proof.
  unfold jsmap_get. induction m as [|[k0 v0] m IH]; simpl.
  - rewrite bool_decide_eq_true_2 by reflexivity. reflexivity.
  - case_bool_decide as Hk; simpl.
    + rewrite bool_decide_eq_true_2 by reflexivity. reflexivity.
    + rewrite bool_decide_eq_false_2 by exact Hk. exact IH.
Qed.

Lemma jsmap_get_set_ne k k' v m :
  k' <> k -> jsmap_get k' (jsmap_set k v m) = jsmap_get k' m.
Proof.
  intros Hne. unfold jsmap_get. induction m as [|[k0 v0] m IH]; simpl.
  - rewrite bool_decide_eq_false_2 by congruence. reflexivity.
  - case_bool_decide as Hk; simpl.
    + subst k0. rewrite !bool_decide_eq_false_2 by congruence. reflexivity.
    + case_bool_decide; [reflexivity|exact IH].
Qed.

Lemma jsmap_get_delete_eq k m : jsmap_get k (jsmap_delete k m) = None.
Proof.
  unfold jsmap_get, jsmap_delete. induction m as [|[k0 v0] m IH]; simpl.
  - reflexivity.
  - case_bool_decide as Hk; simpl; [exact IH|].
    rewrite bool_decide_eq_false_2 by exact Hk. exact IH.
Qed.

Lemma jsmap_get_delete_ne k k' m :
  k' <> k -> jsmap_get k' (jsmap_delete k m) = jsmap_get k' m.
Proof.
  intros Hne. unfold jsmap_get, jsmap_delete.
  induction m as [|[k0 v0] m IH]; simpl; [reflexivity|].
  case_bool_decide as Hk; simpl.
  - subst k0. rewrite bool_decide_eq_false_2 by congruence. exact IH.
  - case_bool_decide; [reflexivity|exact IH].
Qed.

Lemma jsmap_delete_absent k m : jsmap_get k m = None -> jsmap_delete k m = m.
Proof.
  unfold jsmap_get, jsmap_delete. induction m as [|[k0 v0] m IH]; simpl.
  - reflexivity.
  - case_bool_decide as Hk; simpl; [discriminate|].
    intros H. rewrite IH by exact H. reflexivity.
Qed.

Lemma jsmap_get_absent k m :
  Forall (fun kv => fst kv <> k) m -> jsmap_get k m = None.
Proof.
  unfold jsmap_get. induction 1 as [|[k0 v0] m Hk _ IH]; simpl; [reflexivity|].
  rewrite bool_decide_eq_false_2 by exact Hk. exact IH.
Qed.

Lemma jsmap_set_fresh k v m :
  jsmap_get k m = None -> jsmap_set k v m = m ++ [(k, v)].
Proof.
  unfold jsmap_get. induction m as [|[k0 v0] m IH]; simpl; [reflexivity|].
  case_bool_decide as Hk; simpl; [discriminate|].
  intros H. rewrite IH by exact H. reflexivity.
Qed.

Lemma jsmap_delete_Forall (P : Z * V -> Prop) k m :
  Forall P m -> Forall P (jsmap_delete k m).
Proof.
  unfold jsmap_delete. induction 1 as [|kv m Hkv _ IH]; simpl; [constructor|].
  destruct (negb _); [constructor; assumption|assumption].
Qed.

End JsMap.

Lemma ids_issued_fresh (g : GameEntities) :
  ids_issued g -> Game_getEntity (nextEntityId g) g = None.
Proof.
  intros H. apply jsmap_get_absent. eapply Forall_impl; [exact H|].
  intros kv Hkv. simpl in Hkv. lia.
Qed.

(** [addEntity] registers the entity under a fresh id.  In a registry whose
    ids were all issued before, the id returned is [nextEntityId], it was not
    in the registry, the entity is appended to the Map and found by
    [getEntity] under that id, its [id] field is set to it, and every other
    id resolves as before. *)
Theorem Game_addEntity_then_get (g : GameEntities) (w : World) (entity : loc)
    (e : Entity) :
  ids_issued g ->
  entities w !! entity = Some e ->
  exists (g' : GameEntities) (w' : World),
    Game_addEntity entity g w = Some (nextEntityId g, g', w')
    /\ Game_getEntity (nextEntityId g) g = None
    /\ Game_getEntity (nextEntityId g) g' = Some entity
    /\ game_entities g' = game_entities g ++ [(nextEntityId g, entity)]
    /\ (forall k, k <> nextEntityId g -> Game_getEntity k g' = Game_getEntity k g)
    /\ nextEntityId g' = (nextEntityId g + 1)%Z
    /\ ids_issued g'
    /\ entities w' !! entity = Some (set_ent_id (Some (nextEntityId g)) e)
    /\ objects w' = objects w.
Proof.
  intros Hok He. unfold Game_addEntity. rewrite He. simpl.
  eexists _, _. split; [reflexivity|].
  pose proof (ids_issued_fresh g Hok) as Hfresh.
  split; [exact Hfresh|]. unfold Game_getEntity in *. simpl.
  split; [apply jsmap_get_set_eq|].
  split; [apply jsmap_set_fresh; exact Hfresh|].
  split; [intros k Hk; apply jsmap_get_set_ne; exact Hk|].
  split; [reflexivity|].
  split.
  { unfold ids_issued in *. simpl.
    rewrite jsmap_set_fresh by exact Hfresh.
    apply Forall_app. split.
    - eapply Forall_impl; [exact Hok|]. intros kv Hkv. simpl in *. lia.
    - constructor; [|constructor]. simpl. lia. }
  split; [apply lookup_insert_eq|reflexivity].
Qed.

Lemma Game_addEntity_then_get_witness :
  exists (g' : GameEntities) (w' : World),
    Game_addEntity 1%positive new_GameEntities sample_world = Some (0%Z, g', w')
    /\ Game_getEntity 0 g' = Some 1%positive
    /\ nextEntityId g' = 1%Z.
Proof.
  destruct (Game_addEntity_then_get new_GameEntities sample_world 1%positive
              sample_entity (List.Forall_nil _) eq_refl)
    as (g' & w' & H1 & _ & H3 & _ & _ & H6 & _).
  exists g', w'. auto.
Defined.

(** [removeEntity(id)] removes that entry and nothing else: afterwards
    [getEntity(id)] is [undefined], every other id resolves as before, and
    [nextEntityId] is unchanged, so the id is not issued again; removing an
    absent id changes nothing, and so does removing twice. *)
Theorem Game_removeEntity_spec (g : GameEntities) (entityId : Z) :
  Game_getEntity entityId (Game_removeEntity entityId g) = None
  /\ (forall k, k <> entityId ->
        Game_getEntity k (Game_removeEntity entityId g) = Game_getEntity k g)
  /\ nextEntityId (Game_removeEntity entityId g) = nextEntityId g
  /\ (Game_getEntity entityId g = None -> Game_removeEntity entityId g = g)
  /\ Game_removeEntity entityId (Game_removeEntity entityId g)
     = Game_removeEntity entityId g
  /\ (ids_issued g -> ids_issued (Game_removeEntity entityId g)).
Proof.
  unfold Game_removeEntity, Game_getEntity, jsmap_has.
  destruct (jsmap_get entityId (game_entities g)) as [v|] eqn:Hget.
  - rewrite bool_decide_eq_true_2 by eauto. simpl.
    rewrite jsmap_get_delete_eq.
    rewrite bool_decide_eq_false_2 by (intros [? [=]]).
    split; [reflexivity|].
    split; [intros k Hk; apply jsmap_get_delete_ne; exact Hk|].
    split; [reflexivity|]. split; [discriminate|]. split; [reflexivity|].
    unfold ids_issued. simpl. apply jsmap_delete_Forall.
  - rewrite bool_decide_eq_false_2 by (intros [? [=]]).
    rewrite Hget. rewrite bool_decide_eq_false_2 by (intros [? [=]]).
    auto 10.
Qed.

Lemma Game_removeEntity_spec_witness :
  Game_removeEntity 7 new_GameEntities = new_GameEntities.
Proof.
  destruct (Game_removeEntity_spec new_GameEntities 7)
    as (_ & _ & _ & H & _).
  apply H. reflexivity.
Defined.

Lemma Game_addEntity_run (entity : loc) (g : GameEntities) (w : World)
    (e : Entity) :
  entities w !! entity = Some e ->
  exists (g' : GameEntities) (w' : World),
    Game_addEntity entity g w = Some (nextEntityId g, g', w')
    /\ nextEntityId g' = (nextEntityId g + 1)%Z
    /\ (forall l, is_Some (entities w !! l) -> is_Some (entities w' !! l)).
Proof.
  intros He. unfold Game_addEntity. rewrite He. simpl.
  eexists _, _. split; [reflexivity|]. split; [reflexivity|].
  intros l Hl. simpl. destruct (decide (l = entity)) as [->|Hne].
  - rewrite lookup_insert_eq. eauto.
  - rewrite lookup_insert_ne by congruence. exact Hl.
Qed.

(** Entity ids are never reused.  Whatever [addEntity] and [removeEntity]
    calls are made, the ids the [addEntity] calls return are consecutive
    integers from [nextEntityId] on, so they are pairwise distinct, also
    after removals. *)
Theorem entity_ids_never_reused (calls : list registry_call) :
  forall (g : GameEntities) (w : World),
    (forall entity, In (AddEntity entity) calls ->
                    is_Some (entities w !! entity)) ->
    exists (ids : list Z) (g' : GameEntities) (w' : World),
      run_registry calls g w = Some (ids, g', w')
      /\ ids = seqZ (nextEntityId g) (Z.of_nat (count_adds calls))
      /\ nextEntityId g' = (nextEntityId g + Z.of_nat (count_adds calls))%Z
      /\ NoDup ids.
Proof.
  induction calls as [|call calls IH]; intros g w Hin.
  - exists [], g, w. simpl. split; [reflexivity|]. split; [reflexivity|].
    split; [unfold count_adds; simpl; lia|constructor].
  - destruct call as [entity|entityId].
    + destruct (Hin entity (or_introl eq_refl)) as [e He].
      destruct (Game_addEntity_run entity g w e He)
        as (g1 & w1 & Hadd & Hnext & Hkeep).
      destruct (IH g1 w1) as (ids & g' & w' & Hrun & Hids & Hnext' & _).
      { intros entity' Hin'. apply Hkeep, Hin. right. exact Hin'. }
      exists (nextEntityId g :: ids), g', w'.
      simpl. rewrite Hadd. simpl. rewrite Hrun. simpl.
      split; [reflexivity|].
      assert (Hseq : nextEntityId g :: ids
                     = seqZ (nextEntityId g)
                         (Z.of_nat (count_adds (AddEntity entity :: calls)))).
      { unfold count_adds. simpl. fold (count_adds calls).
        rewrite seqZ_cons by lia. rewrite Hids, Hnext. f_equal. f_equal; lia. }
      split; [exact Hseq|].
      split; [unfold count_adds in *; simpl; lia|].
      rewrite Hseq. apply NoDup_seqZ.
    + destruct (IH (Game_removeEntity entityId g) w)
        as (ids & g' & w' & Hrun & Hids & Hnext' & Hnd).
      { intros entity' Hin'. apply Hin. right. exact Hin'. }
      assert (Hn : nextEntityId (Game_removeEntity entityId g) = nextEntityId g).
      { unfold Game_removeEntity. destruct (jsmap_has _ _); reflexivity. }
      exists ids, g', w'. simpl. rewrite Hrun.
      unfold count_adds in *. simpl. rewrite Hn in *. auto.
Qed.

Lemma entity_ids_never_reused_witness :
  exists (ids : list Z) (g' : GameEntities) (w' : World),
    run_registry [AddEntity 1%positive; RemoveEntity 0; AddEntity 9%positive]
      new_GameEntities sample_world = Some (ids, g', w')
    /\ ids = seqZ 0 2
    /\ NoDup ids.
Proof.
  destruct (entity_ids_never_reused
              [AddEntity 1%positive; RemoveEntity 0; AddEntity 9%positive]
              new_GameEntities sample_world)
    as (ids & g' & w' & H1 & H2 & _ & H4).
  - intros entity [[= <-]|[[=]|[[= <-]|[]]]]; eexists; reflexivity.
  - exists ids, g', w'. auto.
Defined.

(** ** TrackRenderSystem: what is drawn is what collides *)

Lemma TRACK_GRID_cell (col row : nat) :
  (col < 20)%nat -> (row < 15)%nat ->
  GameConfig.TRACK_GRID !! (row * 20 + col)%nat
    = GameConfig.getTrackTileAt (Z.of_nat col) (Z.of_nat row).
Proof.
  intros Hc Hr. rewrite getTrackTileAt_in_grid
    by (unfold GameConfig.COLS, GameConfig.ROWS; lia).
  f_equal. unfold GameConfig.COLS. lia.
Qed.

Lemma renderTrackGrid_cols_cells (tileImages : gmap Z image) (row : nat)
    (drawY : R) (n : nat) :
  forall (col : nat) (drawX : R),
    (col + n <= 20)%nat -> (row < 15)%nat ->
    drawX = INR col * 40 ->
    renderTrackGrid_cols tileImages n (row * 20 + col) drawX drawY
      = flat_map
          (fun col =>
             draw_tile tileImages
               (GameConfig.getTrackTileAt (Z.of_nat col) (Z.of_nat row))
               (INR col * 40) drawY)
          (seq col n).
Proof.
  induction n as [|n IH]; intros col drawX Hn Hrow Hx; [reflexivity|].
  simpl. rewrite TRACK_GRID_cell by lia. rewrite Hx. f_equal.
  replace (S (row * 20 + col)) with (row * 20 + S col)%nat by lia.
  apply IH; [lia|exact Hrow|].
  rewrite S_INR. unfold GameConfig.TILE_WIDTH. lra.
Qed.

Lemma renderTrackGrid_rows_step (tileImages : gmap Z image) (n : nat)
    (arrayIndex : nat) (drawY : R) :
  renderTrackGrid_rows tileImages (S n) arrayIndex drawY
    = renderTrackGrid_cols tileImages 20 arrayIndex 0 drawY
      ++ renderTrackGrid_rows tileImages n (arrayIndex + 20)
           (drawY + GameConfig.TILE_HEIGHT).
Proof. reflexivity. Qed.

Lemma renderTrackGrid_rows_cells (tileImages : gmap Z image) (n : nat) :
  forall (row : nat) (drawY : R),
    (row + n <= 15)%nat ->
    drawY = INR row * 40 ->
    renderTrackGrid_rows tileImages n (row * 20) drawY
      = flat_map
          (fun row =>
             flat_map
               (fun col =>
                  draw_tile tileImages
                    (GameConfig.getTrackTileAt (Z.of_nat col) (Z.of_nat row))
                    (INR col * 40) (INR row * 40))
               (seq 0 20))
          (seq row n).
Proof.
  induction n as [|n IH]; intros row drawY Hn Hy; [reflexivity|].
  rewrite renderTrackGrid_rows_step.
  change (seq row (S n)) with (row :: seq (S row) n).
  cbn [flat_map].
  f_equal.
  - replace (row * 20)%nat with (row * 20 + 0)%nat by lia.
    rewrite (renderTrackGrid_cols_cells tileImages row drawY 20 0 0);
      [|lia|lia|simpl; lra].
    rewrite Hy. reflexivity.
  - replace (row * 20 + 20)%nat with (S row * 20)%nat by lia.
    apply IH; [lia|].
    rewrite S_INR, Hy. unfold GameConfig.TILE_HEIGHT. lra.
Qed.

(** The track is drawn as it collides.  The loop of [renderTrackGrid], with
    its running index and running draw position, draws for every cell
    [(col, row)] of the grid, row by row, the tile that
    [getTrackTileAt(col, row)] returns, at [(col * 40, row * 40)]: the
    rectangle that [worldToGrid] maps to that cell. *)
Theorem renderTrackGrid_cells (tileImages : gmap Z image) :
  renderTrackGrid tileImages
    = flat_map
        (fun row =>
           flat_map
             (fun col =>
                draw_tile tileImages
                  (GameConfig.getTrackTileAt (Z.of_nat col) (Z.of_nat row))
                  (INR col * 40) (INR row * 40))
             (seq 0 20))
        (seq 0 15).
Proof.
  unfold renderTrackGrid. change (Z.to_nat GameConfig.ROWS) with 15%nat.
  apply (renderTrackGrid_rows_cells tileImages 15 0 0); [lia|simpl; lra].
Qed.

(** ** createCar *)

Lemma fresh_object (w : World) : objects w !! fresh (dom (objects w)) = None.
Proof. apply not_elem_of_dom. apply is_fresh. Qed.

Lemma fresh_entity (w : World) : entities w !! fresh (dom (entities w)) = None.
Proof. apply not_elem_of_dom. apply is_fresh. Qed.

(** [new C(...)] followed by [car.addComponent(name, it)]. *)
Lemma attach_new (car : loc) (name : string) (b : Body) (w : World)
    (e : Entity) :
  entities w !! car = Some e ->
  exists l : loc,
    alloc_object (mkComponent None b) w
      = (l, store_object l (mkComponent None b) w)
    /\ objects w !! l = None
    /\ Entity_addComponent car name l
         (store_object l (mkComponent None b) w)
       = Some (mkWorld
                 (<[car := set_components (<[name := l]> (components e)) e]>
                    (entities w))
                 (<[l := mkComponent (Some car) b]> (objects w))
                 (cleanup_calls w)).
Proof.
  intros He. exists (fresh (dom (objects w))).
  split; [reflexivity|]. split; [apply fresh_object|].
  unfold Entity_addComponent. simpl. rewrite He. simpl.
  rewrite lookup_insert_eq. simpl.
  unfold store_object, store_entity, set_entity. simpl.
  rewrite insert_insert_eq. reflexivity.
Qed.

(** createCar builds, at locations the store did not use, an active entity
    with no id, tagged "car" and "player", whose four components point back
    to it; the Transform is at the start position with scale 1, the physics
    is a fresh CarPhysics, and nothing that was in the store is changed. *)
Theorem createCar_spec (start : StartPosition) (w : World) :
  exists (car : loc) (w' : World) (e : Entity) (tl pl sl il : loc),
    createCar start w = Some (car, w')
    /\ entities w !! car = None
    /\ entities w' !! car = Some e
    /\ ent_id e = None /\ active e = true
    /\ tags e = {[ "car"; "player" ]}
    /\ components e
       = <["Input" := il]> (<["Sprite" := sl]> (<["Physics" := pl]>
           (<["Transform" := tl]> ∅)))
    /\ objects w !! tl = None /\ objects w !! pl = None
    /\ objects w !! sl = None /\ objects w !! il = None
    /\ objects w' !! tl
       = Some (mkComponent (Some car)
                 (BTransform
                    (mkTransform (mkVec2 (start_x start) (start_y start))
                       (start_angle start) (mkVec2 1 1) (mkVec2 0 0))))
    /\ objects w' !! pl
       = Some (mkComponent (Some car) (BCarPhysics new_CarPhysics))
    /\ objects w' !! sl = Some (mkComponent (Some car) (BOther true))
    /\ objects w' !! il = Some (mkComponent (Some car) (BOther false))
    /\ (forall l, is_Some (objects w !! l) -> objects w' !! l = objects w !! l)
    /\ (forall l, l <> car -> entities w' !! l = entities w !! l)
    /\ cleanup_calls w' = cleanup_calls w.
Proof.
  unfold createCar.
  set (car := fresh (dom (entities w))).
  assert (Hcar : entities w !! car = None) by apply fresh_entity.
  unfold alloc_entity. fold car.
  set (w0 := store_entity car new_Entity w).
  assert (He0 : entities w0 !! car = Some new_Entity)
    by (unfold w0, store_entity; simpl; apply lookup_insert_eq).
  destruct (attach_new car "Transform"
              (BTransform (new_Transform (start_x start) (start_y start)
                             (start_angle start))) w0 _ He0)
    as (tl & -> & Htl & ->).
  cbn [mbind option_bind].
  match goal with |- context [alloc_object _ ?W] => set (w1 := W) end.
  assert (He1 : entities w1 !! car
                = Some (set_components
                          (<["Transform" := tl]> (components new_Entity))
                          new_Entity))
    by (unfold w1; simpl; apply lookup_insert_eq).
  destruct (attach_new car "Physics" (BCarPhysics new_CarPhysics) w1 _ He1)
    as (pl & -> & Hpl & ->).
  cbn [mbind option_bind].
  match goal with |- context [alloc_object _ ?W] => set (w2 := W) end.
  assert (He2 : entities w2 !! car
                = Some (set_components
                          (<["Physics" := pl]>
                             (<["Transform" := tl]> (components new_Entity)))
                          new_Entity))
    by (unfold w2; simpl; apply lookup_insert_eq).
  destruct (attach_new car "Sprite" (BOther true) w2 _ He2)
    as (sl & -> & Hsl & ->).
  cbn [mbind option_bind].
  match goal with |- context [alloc_object _ ?W] => set (w3 := W) end.
  assert (He3 : entities w3 !! car
                = Some (set_components
                          (<["Sprite" := sl]>
                             (<["Physics" := pl]>
                                (<["Transform" := tl]>
                                   (components new_Entity))))
                          new_Entity))
    by (unfold w3; simpl; apply lookup_insert_eq).
  destruct (attach_new car "Input" (BOther false) w3 _ He3)
    as (il & -> & Hil & ->).
  cbn [mbind option_bind].
  unfold Entity_addTag at 2. cbn [entities]. rewrite lookup_insert_eq.
  cbn [mbind option_bind].
  unfold Entity_addTag, store_entity. cbn [entities objects cleanup_calls].
  rewrite lookup_insert_eq. cbn [mbind option_bind].
  (* the four fresh locations are pairwise distinct and new to [w] *)
  assert (Htl0 : objects w !! tl = None) by exact Htl.
  assert (Hpl1 : tl <> pl).
  { intros <-. unfold w1 in Hpl. simpl in Hpl.
    rewrite lookup_insert_eq in Hpl. discriminate. }
  assert (Hpl0 : objects w !! pl = None).
  { unfold w1 in Hpl. simpl in Hpl.
    rewrite lookup_insert_ne in Hpl by exact Hpl1. exact Hpl. }
  assert (Hsl2 : pl <> sl).
  { intros <-. unfold w2 in Hsl. simpl in Hsl.
    rewrite lookup_insert_eq in Hsl. discriminate. }
  assert (Hsl1 : tl <> sl).
  { intros <-. unfold w2 in Hsl. simpl in Hsl.
    rewrite lookup_insert_ne in Hsl by exact Hsl2.
    rewrite lookup_insert_eq in Hsl. discriminate. }
  assert (Hsl0 : objects w !! sl = None).
  { unfold w2 in Hsl. simpl in Hsl.
    rewrite lookup_insert_ne in Hsl by exact Hsl2.
    rewrite lookup_insert_ne in Hsl by exact Hsl1. exact Hsl. }
  assert (Hil3 : sl <> il).
  { intros <-. unfold w3 in Hil. simpl in Hil.
    rewrite lookup_insert_eq in Hil. discriminate. }
  assert (Hil2 : pl <> il).
  { intros <-. unfold w3 in Hil. simpl in Hil.
    rewrite lookup_insert_ne in Hil by exact Hil3.
    rewrite lookup_insert_eq in Hil. discriminate. }
  assert (Hil1 : tl <> il).
  { intros <-. unfold w3 in Hil. simpl in Hil.
    rewrite lookup_insert_ne in Hil by exact Hil3.
    rewrite lookup_insert_ne in Hil by exact Hil2.
    rewrite lookup_insert_eq in Hil. discriminate. }
  assert (Hil0 : objects w !! il = None).
  { unfold w3 in Hil. simpl in Hil.
    rewrite lookup_insert_ne in Hil by exact Hil3.
    rewrite lookup_insert_ne in Hil by exact Hil2.
    rewrite lookup_insert_ne in Hil by exact Hil1. exact Hil. }
  eexists car, _, _, tl, pl, sl, il.
  split; [reflexivity|].
  split; [exact Hcar|].
  cbn [entities objects cleanup_calls].
  split; [apply lookup_insert_eq|].
  cbn [ent_id active tags components].
  split; [reflexivity|]. split; [reflexivity|].
  split.
  { simpl. set_solver. }
  split; [reflexivity|].
  split; [exact Htl0|]. split; [exact Hpl0|].
  split; [exact Hsl0|]. split; [exact Hil0|].
  split.
  { rewrite !lookup_insert_ne by congruence.
    unfold w3, w2, w1. simpl.
    rewrite !lookup_insert_ne by congruence.
    apply lookup_insert_eq. }
  split.
  { rewrite !lookup_insert_ne by congruence.
    unfold w3, w2. simpl.
    rewrite !lookup_insert_ne by congruence.
    apply lookup_insert_eq. }
  split.
  { rewrite !lookup_insert_ne by congruence.
    unfold w3. simpl.
    apply lookup_insert_eq. }
  split; [apply lookup_insert_eq|].
  split.
  { intros l [c Hl].
    assert (l <> tl) by congruence. assert (l <> pl) by congruence.
    assert (l <> sl) by congruence. assert (l <> il) by congruence.
    rewrite lookup_insert_ne by congruence.
    unfold w3. simpl. rewrite lookup_insert_ne by congruence.
    unfold w2. simpl. rewrite lookup_insert_ne by congruence.
    unfold w1. simpl. rewrite lookup_insert_ne by congruence.
    reflexivity. }
  split.
  { intros l Hl.
    rewrite !lookup_insert_ne by congruence.
    unfold w3. simpl. rewrite lookup_insert_ne by congruence.
    unfold w2. simpl. rewrite lookup_insert_ne by congruence.
    unfold w1. simpl. rewrite lookup_insert_ne by congruence.
    unfold w0, store_entity. simpl. rewrite lookup_insert_ne by congruence.
    reflexivity. }
  reflexivity.
Qed.
